(** * AuthorizedHumbleAPI (src/webservice.py): a shallow embedding

    The client is modelled in a state-and-exception monad over a [world]
    that records what the Python object can observe or change: the requests
    issued through the aiohttp session, the session's cookie jar and the
    errors written with [logger.error].

    Conventions.
    - A Python [str] is a [string] whose characters stand for code points
      below 256; [bytes] are [string]s as well.
    - A Python [int] is a [Z].
    - Every exception the model raises is a subclass of [Exception]
      ([BaseException]-only signals such as [KeyboardInterrupt] are not
      modelled).
    - Library routines the source calls but does not define (the aiohttp
      transport, [json], [yarl], the escape codec) are section variables. *)

From Stdlib Require Import ZArith List String Ascii Bool Lia PrimFloat.
From Stdlib Require Import DecimalString.
From stdpp Require Import gmap strings.

Import ListNotations.
Set Warnings "-register-all".
Local Open Scope string_scope.
Local Open Scope list_scope.
Local Open Scope Z_scope.

(** ** JSON values, as [json.loads] and [ClientResponse.json] return them *)

Inductive json : Type :=
| JNull
| JBool (b : bool)
| JNum (n : Z)
| JFloat (f : float)
| JStr (s : string)
| JArr (items : list json)
| JObj (fields : list (string * json)).

(** ** Exceptions (all of them subclasses of [Exception]) *)

Inductive exn : Type :=
| ClientResponseError (status : Z)   (* aiohttp: this class and its subclasses *)
| ClientConnectionError              (* aiohttp: the request never got an answer *)
| TimeoutError
| JSONDecodeError
| UnicodeDecodeError
| BinasciiError (msg : string)
| ValueError (msg : string)
| KeyError (key : string)
| TypeError
| IndexError
| AttributeError (attr : string)     (* attribute access on [None] *)
| UnboundLocalError (var : string)
| CookieError
| RuntimeError (msg : string)
| UnknownBackendResponse (msg : string)
| GalaxyError (name : string).       (* the other galaxy.api.errors classes *)

Inductive result (A : Type) : Type :=
| Ok (a : A)
| Raise (e : exn).
Arguments Ok {A} a.
Arguments Raise {A} e.

(** ** The HTTP session as the client sees it *)

Record request : Type := {
  rq_method : string;
  rq_url : string;
  rq_params : list (string * string);
  rq_raise_for_status : option bool;
  rq_allow_redirects : option bool
}.

(** A [ClientResponse] is given by its status and by what each of its body
    accessors ([json()], [text()], [read()]) evaluates to where the client
    calls it: straight after the request or, in the two subscription
    generators, after [raise_for_status]. *)
Record response : Type := {
  status : Z;
  res_json : result json;
  res_text : result string;
  res_read : result string
}.

Inductive log_entry : Type :=
| LogError (e : exn)            (* logger.error(e) *)
| LogErrorIgnored (e : exn).    (* logger.error(repr(e) + '. Error ignored') *)

Record world : Type := {
  sent : list request;
  cookie_jar : gmap string string;
  error_log : list log_entry
}.

Definition M (A : Type) : Type := world -> result A * world.

Definition ret {A} (a : A) : M A := fun w => (Ok a, w).
Definition raise {A} (e : exn) : M A := fun w => (Raise e, w).
Definition lift {A} (r : result A) : M A := fun w => (r, w).
Definition bind {A B} (m : M A) (k : A -> M B) : M B :=
  fun w => match m w with
           | (Ok a, w') => k a w'
           | (Raise e, w') => (Raise e, w')
           end.
Definition try_except {A} (m : M A) (handler : exn -> M A) : M A :=
  fun w => match m w with
           | (Ok a, w') => (Ok a, w')
           | (Raise e, w') => handler e w'
           end.

Notation "'let*' x ':=' m 'in' k" := (bind m (fun x => k))
  (at level 10, x name, m at level 200, k at level 200).
Notation "'do*' m 'in' k" := (bind m (fun _ => k))
  (at level 10, m at level 200, k at level 200).

Definition logger_error (entry : log_entry) : M unit :=
  fun w => (Ok tt, {| sent := sent w; cookie_jar := cookie_jar w;
                      error_log := error_log w ++ [entry] |}).

(** ** Python operations on values *)

(** [str(n)] for an [int]. *)
Definition str_of_int (n : Z) : string := NilZero.string_of_int (Z.to_int n).

Fixpoint dict_get (key : string) (fields : list (string * json)) : option json :=
  match fields with
  | [] => None
  | (k, v) :: rest => if String.eqb k key then Some v else dict_get key rest
  end.

(** [v[key]] with a string key: only a dict has one. *)
Definition getitem (v : json) (key : string) : result json :=
  match v with
  | JObj fields =>
      match dict_get key fields with
      | Some x => Ok x
      | None => Raise (KeyError key)
      end
  | _ => Raise TypeError
  end.

Fixpoint chars_of (s : string) : list json :=
  match s with
  | EmptyString => []
  | String c rest => JStr (String c EmptyString) :: chars_of rest
  end.

(** What [for x in v] iterates over. *)
Definition py_iter (v : json) : result (list json) :=
  match v with
  | JArr items => Ok items
  | JObj fields => Ok (map (fun kv => JStr (fst kv)) fields)
  | JStr s => Ok (chars_of s)
  | _ => Raise TypeError
  end.

(** [bool(v)]. *)
Definition truthy (v : json) : bool :=
  match v with
  | JNull => false
  | JBool b => b
  | JNum n => negb (n =? 0)
  | JFloat f => negb (PrimFloat.eqb f PrimFloat.zero)
  | JStr s => negb (String.eqb s "")
  | JArr items => negb (Nat.eqb (length items) 0)
  | JObj fields => negb (Nat.eqb (length fields) 0)
  end.

Definition result_bind {A B} (r : result A) (k : A -> result B) : result B :=
  match r with
  | Ok a => k a
  | Raise e => Raise e
  end.

Notation "'let?' x ':=' r 'in' k" := (result_bind r (fun x => k))
  (at level 10, x name, r at level 200, k at level 200).

(** [[it[key] for it in items]]: the first lookup that raises ends the
    comprehension. *)
Fixpoint comprehension_getitem (key : string) (items : list json)
  : result (list json) :=
  match items with
  | [] => Ok []
  | it :: rest =>
      match getitem it key with
      | Ok v =>
          match comprehension_getitem key rest with
          | Ok vs => Ok (v :: vs)
          | Raise e => Raise e
          end
      | Raise e => Raise e
      end
  end.

(** ** Python operations on strings *)

Definition dquote : string := String "034"%char EmptyString.
Definition code (c : ascii) : Z := Z.of_N (N_of_ascii c).
Definition chr (n : Z) : ascii := ascii_of_N (Z.to_N n).
Definition len (s : string) : Z := Z.of_nat (String.length s).

Fixpoint find_from (sub s : string) (i : Z) : Z :=
  if String.prefix sub s then i
  else match s with
       | EmptyString => -1
       | String _ rest => find_from sub rest (i + 1)
       end.

(** [s.find(sub)]: the lowest index where [sub] occurs, or -1. *)
Definition str_find (s sub : string) : Z := find_from sub s 0.

Fixpoint drop_chars (n : nat) (s : string) : string :=
  match n, s with
  | O, _ => s
  | S _, EmptyString => EmptyString
  | S n', String _ rest => drop_chars n' rest
  end.

(** [s[start:]]: a negative [start] counts from the end. *)
Definition slice_from (s : string) (start : Z) : string :=
  let start := if start <? 0 then Z.max 0 (len s + start) else start in
  drop_chars (Z.to_nat start) s.

(** [str.isspace] on one character, for code points below 256. *)
Definition isspace (c : ascii) : bool :=
  let n := code c in
  ((9 <=? n) && (n <=? 13)) || ((28 <=? n) && (n <=? 32)) || (n =? 133) || (n =? 160).

Fixpoint lstrip (s : string) : string :=
  match s with
  | EmptyString => EmptyString
  | String c rest => if isspace c then lstrip rest else s
  end.

Fixpoint rstrip (s : string) : string :=
  match s with
  | EmptyString => EmptyString
  | String c rest =>
      match rstrip rest with
      | EmptyString => if isspace c then EmptyString else String c EmptyString
      | rest' => String c rest'
      end
  end.

(** [s.strip()]. *)
Definition strip (s : string) : string := rstrip (lstrip s).

(** [s.replace(c, '')] for a one-character [c]. *)
Fixpoint remove_char (c : ascii) (s : string) : string :=
  match s with
  | EmptyString => EmptyString
  | String d rest =>
      if Ascii.eqb d c then remove_char c rest else String d (remove_char c rest)
  end.

(** [s.split(sep)] for a one-character [sep], and [s.split(sep)[0]]: the
    text before the first [sep], the whole of [s] when there is none. *)
Fixpoint split_on (sep : ascii) (s : string) : list string :=
  match s with
  | EmptyString => [EmptyString]
  | String d rest =>
      if Ascii.eqb d sep then EmptyString :: split_on sep rest
      else match split_on sep rest with
           | segment :: segments => String d segment :: segments
           | [] => [String d EmptyString]
           end
  end.

Definition first_segment (sep : ascii) (s : string) : string :=
  hd EmptyString (split_on sep s).

Fixpoint contains_char (c : ascii) (s : string) : bool :=
  match s with
  | EmptyString => false
  | String d rest => Ascii.eqb d c || contains_char c rest
  end.

Fixpoint all_chars (p : ascii -> bool) (s : string) : bool :=
  match s with
  | EmptyString => true
  | String d rest => p d && all_chars p rest
  end.

Fixpoint map_chars (f : ascii -> ascii) (s : string) : string :=
  match s with
  | EmptyString => EmptyString
  | String d rest => String (f d) (map_chars f rest)
  end.

Definition is_ascii (c : ascii) : bool := code c <=? 127.

(** [bytes(s, "utf-8")]: a code point from 128 to 255 takes two bytes. *)
Fixpoint utf8_encode (s : string) : string :=
  match s with
  | EmptyString => EmptyString
  | String d rest =>
      let n := code d in
      if n <=? 127 then String d (utf8_encode rest)
      else String (chr (Z.lor 192 (Z.shiftr n 6)))
             (String (chr (Z.lor 128 (Z.land n 63))) (utf8_encode rest))
  end.

(** ** base64.b64decode, as CPython 3.7 (the interpreter the plugin host
    embeds) implements it: binascii.a2b_base64 in its default, lenient mode *)

(** The decoding table: the value of each ASCII character, 255 (the C
    table's [(unsigned char) -1]) for a character outside the alphabet, and 0
    for the pad character. *)
Definition table_a2b_base64 (c : Z) : Z :=
  if (65 <=? c) && (c <=? 90) then c - 65
  else if (97 <=? c) && (c <=? 122) then c - 71
  else if (48 <=? c) && (c <=? 57) then c + 4
  else if c =? 43 then 62
  else if c =? 47 then 63
  else if c =? 61 then 0
  else 255.

Definition BASE64_PAD : Z := 61.

(** The [(num+1)]-th character of [s] that the table knows, or -1. *)
Fixpoint binascii_find_valid (s : string) (num : Z) : Z :=
  match s with
  | EmptyString => -1
  | String ch rest =>
      let c := code ch in
      let b64val := table_a2b_base64 (Z.land c 127) in
      if (c <=? 127) && negb (b64val =? 255) then
        if num =? 0 then c else binascii_find_valid rest (num - 1)
      else binascii_find_valid rest num
  end.

Record a2b_state : Type := {
  leftbits : Z;
  leftchar : Z;          (* unsigned int *)
  quad_pos : Z;
  bin_data : list ascii  (* the bytes written so far *)
}.

Definition a2b_init : a2b_state :=
  {| leftbits := 0; leftchar := 0; quad_pos := 0; bin_data := [] |}.

Fixpoint a2b_loop (ascii_data : string) (st : a2b_state) : a2b_state :=
  match ascii_data with
  | EmptyString => st
  | String ch rest =>
      let this_ch := code ch in
      if (this_ch >? 127) || (this_ch =? 13) || (this_ch =? 10) || (this_ch =? 32)
      then a2b_loop rest st
      else if this_ch =? BASE64_PAD then
        if (quad_pos st <? 2)
           || ((quad_pos st =? 2)
               && negb (binascii_find_valid ascii_data 1 =? BASE64_PAD))
        then a2b_loop rest st
        else (* a pad sequence means no more input *)
          {| leftbits := 0; leftchar := leftchar st;
             quad_pos := quad_pos st; bin_data := bin_data st |}
      else
        let this_ch := table_a2b_base64 this_ch in
        if this_ch =? 255 then a2b_loop rest st
        else
          let quad_pos' := Z.land (quad_pos st + 1) 3 in
          let leftchar' := (Z.lor (Z.shiftl (leftchar st) 6) this_ch) mod 2 ^ 32 in
          let leftbits' := leftbits st + 6 in
          if leftbits' >=? 8 then
            let leftbits'' := leftbits' - 8 in
            a2b_loop rest
              {| leftbits := leftbits'';
                 leftchar := Z.land leftchar' (Z.shiftl 1 leftbits'' - 1);
                 quad_pos := quad_pos';
                 bin_data :=
                   bin_data st ++ [chr (Z.land (Z.shiftr leftchar' leftbits'') 255)] |}
          else
            a2b_loop rest
              {| leftbits := leftbits'; leftchar := leftchar';
                 quad_pos := quad_pos'; bin_data := bin_data st |}
  end.

Definition a2b_base64 (data : string) : result string :=
  let st := a2b_loop data a2b_init in
  if leftbits st =? 0 then Ok (string_of_list_ascii (bin_data st))
  else if leftbits st =? 6 then
    Raise (BinasciiError "Invalid base64-encoded string")
  else Raise (BinasciiError "Incorrect padding").

(** [base64.b64decode(s)] for a [str] argument. *)
Definition b64decode (s : string) : result string :=
  if all_chars is_ascii s then a2b_base64 s
  else Raise (ValueError "string argument should contain only ASCII characters").





(** ** http.cookies.SimpleCookie: which keys [cookie[key] = value] accepts *)

Definition is_legal_char (c : ascii) : bool :=
  let n := code c in
  ((65 <=? n) && (n <=? 90)) || ((97 <=? n) && (n <=? 122))
  || ((48 <=? n) && (n <=? 57))
  || contains_char c "!#$%&'*+-.^_`|~:".

Definition ascii_lower (c : ascii) : ascii :=
  let n := code c in
  if (65 <=? n) && (n <=? 90) then chr (n + 32) else c.

Definition reserved_keys : list string :=
  ["expires"; "path"; "comment"; "domain"; "max-age"; "secure"; "httponly";
   "version"].

Definition is_legal_key (key : string) : bool :=
  negb (existsb (String.eqb (map_chars ascii_lower key)) reserved_keys)
  && negb (String.eqb key "")
  && all_chars is_legal_char key.

(** Attribute names that interpreters after CPython 3.7 reserve as well. *)
Definition later_reserved_keys : list string := ["samesite"; "partitioned"].

Definition is_printable (c : ascii) : bool :=
  (32 <=? code c) && (code c <? 127).

(** A cookie that [SimpleCookie] takes on CPython 3.7 and on the later
    interpreters alike: a legal name that none of them reserves, and a
    value of printable ASCII characters, free of the control characters
    that recent interpreters refuse. *)
Definition is_plain_cookie (name val : string) : bool :=
  is_legal_key name
  && negb (existsb (String.eqb (map_chars ascii_lower name)) later_reserved_keys)
  && all_chars is_printable val.

(** ** Records of the repository's model package *)

(** Modelled from the spec: [DownloadStructItem] (model/download.py is not
    part of the sources at hand), a plain data-transfer record of which the
    client reads the web link, absent ([None]) when the download has none. *)
Record DownloadStructItem : Type := {
  dsi_web : option string
}.

(** Modelled from the spec: [TroveDownload] (model/download.py), a plain
    data-transfer record with a machine name and an optional web link. *)
Record TroveDownload : Type := {
  td_machine_name : string;
  td_web : option string
}.

(** Modelled from the spec: [ChoiceMonth] (model/subscription.py), the typed
    record that wraps one entry of [previous_months]. *)
Record ChoiceMonth : Type := {
  cm_data : json
}.

(** Modelled from the spec: [ChoiceContentData], [MontlyContentData] and
    [UserSubscriptionPlan] (model/subscription.py), plain data-transfer
    records that wrap the JSON they are built from. *)
Record ChoiceContentData : Type := {
  ccd_data : json
}.

Record MontlyContentData : Type := {
  mcd_data : json
}.

Record UserSubscriptionPlan : Type := {
  usp_data : json
}.

(** The host's [{name, value}] pair. *)
Record auth_cookie : Type := {
  ac_name : string;
  ac_value : string
}.

(** ** Generators

    A generator is a state and a step function: one step runs the body up
    to the next [yield] ([Yield]), to the end of the body ([Stop]), or
    through one turn of its loop that yields nothing ([Continue]); an
    exception leaves through the monad. *)

Inductive gen_step (S I : Type) : Type :=
| Yield (item : I) (next : S)
| Continue (next : S)
| Stop.
Arguments Yield {S I} item next.
Arguments Continue {S I} next.
Arguments Stop {S I}.

Inductive gen_end : Type :=
| Exhausted            (* the generator returned *)
| Failed (e : exn)     (* the generator raised *)
| Suspended.           (* the consumer stopped asking *)

(** [async for item in gen] collecting the items, for at most [fuel] steps. *)
Fixpoint drain {S I} (step : S -> M (gen_step S I)) (fuel : nat) (s : S)
  (w : world) : list I * gen_end * world :=
  match fuel with
  | O => ([], Suspended, w)
  | Datatypes.S fuel' =>
      match step s w with
      | (Raise e, w') => ([], Failed e, w')
      | (Ok Stop, w') => ([], Exhausted, w')
      | (Ok (Continue s'), w') => drain step fuel' s' w'
      | (Ok (Yield item s'), w') =>
          let '(items, e, w'') := drain step fuel' s' w' in
          (item :: items, e, w'')
      end
  end.

Definition new_world : world :=
  {| sent := []; cookie_jar := ∅; error_log := [] |}.

(** What a [with] block's body did when it did not raise. *)
Inductive flow (R : Type) : Type :=
| Returned (r : R)   (* it executed [return r] *)
| Fell_through.      (* it ran to its end *)
Arguments Returned {R} r.
Arguments Fell_through {R}.

(** [d.update(other)] on a dict kept in insertion order. *)
Fixpoint dict_set {V} (k : string) (v : V) (d : list (string * V))
  : list (string * V) :=
  match d with
  | [] => [(k, v)]
  | (k', v') :: rest =>
      if String.eqb k' k then (k', v) :: rest else (k', v') :: dict_set k v rest
  end.

Definition dict_update (d other : list (string * string)) : list (string * string) :=
  fold_left (fun acc kv => dict_set (fst kv) (snd kv) acc) other d.

(** ** A JSON scanner for the examples

    It reads the part of JSON the examples are written in: [null], [true],
    [false], integers, strings without escapes, arrays and objects. The
    client itself is stated over any decoder (section variables
    [raw_decode] and [json_loads] below). *)

Definition is_json_ws (c : ascii) : bool :=
  let n := code c in (n =? 32) || (n =? 9) || (n =? 10) || (n =? 13).

Fixpoint skip_ws (s : string) : string :=
  match s with
  | EmptyString => EmptyString
  | String c rest => if is_json_ws c then skip_ws rest else s
  end.

Definition is_digit (c : ascii) : bool := (48 <=? code c) && (code c <=? 57).

(** The text of a string up to its closing quote, and what follows it. *)
Fixpoint scan_string (s : string) : option (string * string) :=
  match s with
  | EmptyString => None
  | String c rest =>
      if code c =? 34 then Some (EmptyString, rest)
      else if (code c =? 92) || (code c <? 32) then None
      else match scan_string rest with
           | Some (txt, after) => Some (String c txt, after)
           | None => None
           end
  end.

Fixpoint scan_digits (s : string) (acc : Z) : Z * string :=
  match s with
  | EmptyString => (acc, EmptyString)
  | String c rest =>
      if is_digit c then scan_digits rest (10 * acc + (code c - 48)) else (acc, s)
  end.

(** [0] or a digit sequence that starts with a non-zero digit. *)
Definition scan_natural (s : string) : option (Z * string) :=
  match s with
  | String c rest =>
      if code c =? 48 then Some (0, rest)
      else if is_digit c then Some (scan_digits s 0)
      else None
  | EmptyString => None
  end.

Definition no_fraction (s : string) : bool :=
  match s with
  | String c _ => negb ((code c =? 46) || (code c =? 101) || (code c =? 69))
  | EmptyString => true
  end.

Definition scan_int (s : string) : option (Z * string) :=
  match s with
  | String c rest =>
      if code c =? 45 then
        match scan_natural rest with
        | Some (n, after) => if no_fraction after then Some (- n, after) else None
        | None => None
        end
      else
        match scan_natural s with
        | Some (n, after) => if no_fraction after then Some (n, after) else None
        | None => None
        end
  | EmptyString => None
  end.

Definition after_prefix (p s : string) : option string :=
  if String.prefix p s then Some (drop_chars (String.length p) s) else None.

Fixpoint scan_value (fuel : nat) (s : string) : option (json * string) :=
  match fuel with
  | O => None
  | S fuel' =>
      match s with
      | EmptyString => None
      | String c rest =>
          if code c =? 34 then
            match scan_string rest with
            | Some (txt, after) => Some (JStr txt, after)
            | None => None
            end
          else if code c =? 91 then
            match skip_ws rest with
            | String d after =>
                if code d =? 93 then Some (JArr [], after)
                else match scan_items fuel' (skip_ws rest) with
                     | Some (items, after') => Some (JArr items, after')
                     | None => None
                     end
            | EmptyString => None
            end
          else if code c =? 123 then
            match skip_ws rest with
            | String d after =>
                if code d =? 125 then Some (JObj [], after)
                else match scan_members fuel' (skip_ws rest) with
                     | Some (fields, after') =>
                         Some (JObj (fold_left
                                       (fun acc kv => dict_set (fst kv) (snd kv) acc)
                                       fields []), after')
                     | None => None
                     end
            | EmptyString => None
            end
          else
            match after_prefix "null" s, after_prefix "true" s,
                  after_prefix "false" s with
            | Some after, _, _ => Some (JNull, after)
            | _, Some after, _ => Some (JBool true, after)
            | _, _, Some after => Some (JBool false, after)
            | None, None, None =>
                match scan_int s with
                | Some (n, after) => Some (JNum n, after)
                | None => None
                end
            end
      end
  end
with scan_items (fuel : nat) (s : string) : option (list json * string) :=
  match fuel with
  | O => None
  | S fuel' =>
      match scan_value fuel' s with
      | Some (v, after) =>
          match skip_ws after with
          | String d after' =>
              if code d =? 44 then
                match scan_items fuel' (skip_ws after') with
                | Some (items, after'') => Some (v :: items, after'')
                | None => None
                end
              else if code d =? 93 then Some ([v], after')
              else None
          | EmptyString => None
          end
      | None => None
      end
  end
with scan_members (fuel : nat) (s : string) : option (list (string * json) * string) :=
  match fuel with
  | O => None
  | S fuel' =>
      match s with
      | String q rest =>
          if code q =? 34 then
            match scan_string rest with
            | Some (key, after) =>
                match skip_ws after with
                | String colon after' =>
                    if code colon =? 58 then
                      match scan_value fuel' (skip_ws after') with
                      | Some (v, after'') =>
                          match skip_ws after'' with
                          | String d after3 =>
                              if code d =? 44 then
                                match scan_members fuel' (skip_ws after3) with
                                | Some (fields, after4) =>
                                    Some ((key, v) :: fields, after4)
                                | None => None
                                end
                              else if code d =? 125 then Some ([(key, v)], after3)
                              else None
                          | EmptyString => None
                          end
                      | None => None
                      end
                    else None
                | EmptyString => None
                end
            | None => None
            end
          else None
      | EmptyString => None
      end
  end.

Definition raw_decode_lite (s : string) : result (json * Z) :=
  match scan_value (2 * String.length s + 2) s with
  | Some (v, after) => Ok (v, len s - len after)
  | None => Raise JSONDecodeError
  end.

(** [json.loads]: white space is allowed around the value, nothing else. *)
Definition json_loads_lite (s : string) : result json :=
  match scan_value (2 * String.length s + 2) (skip_ws s) with
  | Some (v, after) =>
      match skip_ws after with
      | EmptyString => Ok v
      | _ => Raise JSONDecodeError
      end
  | None => Raise JSONDecodeError
  end.

(** [q s] is [s] between double quotes. *)
Definition q (s : string) : string := dquote +:+ s +:+ dquote.

(** ** class AuthorizedHumbleAPI *)

Definition _AUTHORITY : string := "https://www.humblebundle.com/".
Definition _ORDER_LIST_URL : string := "api/v1/user/order".
Definition _SUBSCRIPTION_PRODUCTS : string :=
  "api/v1/subscriptions/humble_monthly/subscription_products_with_gamekeys".
Definition _SUBSCRIPTION_HISTORY (from_product : string) : string :=
  "api/v1/subscriptions/humble_monthly/history?from_product=" +:+ from_product.
Definition _TROVE_CHUNK_URL (index : string) : string :=
  "api/v1/trove/chunk?property=popularity&direction=desc&index=" +:+ index.
Definition _DOWNLOAD_SIGN : string := "api/v1/user/download/sign".
Definition _ORDER_URL (gamekey : string) : string := "/api/v1/order/" +:+ gamekey.
Definition _SUBSCRIPTION : string := "subscription".
Definition _SUBSCRIPTION_HOME : string := "subscription/home".
Definition _SUBSCRIPTION_TROVE : string := "subscription/trove".
Definition _HUMBLER_REDEEM_DOWNLOAD : string := "humbler/redeemdownload".
Definition redeem_success : string := "{'success': True}".

(** ** URL paths for the examples

    The path segments of a link as [yarl.URL(link).parts] gives them, for
    links without percent escapes. The client is stated over any
    [yarl_parts]. *)

Definition url_parts_lite (link : string) : result (list string) :=
  let no_query := first_segment "?" (first_segment "#" link) in
  let scheme_end := str_find no_query "://" in
  if scheme_end <? 0 then
    if String.prefix "/" no_query
    then Ok ("/" :: split_on "/" (drop_chars 1 no_query))
    else Ok (split_on "/" no_query)
  else
    let after := slice_from no_query (scheme_end + 3) in
    let path_start := str_find after "/" in
    if path_start <? 0 then Ok ["/"]
    else Ok ("/" :: split_on "/" (slice_from after (path_start + 1))).

(** ** Scripted sessions for the examples *)

(** What [galaxy.http.handle_exception] makes of the aiohttp exceptions. *)
Definition galaxy_http_errors (e : exn) : exn :=
  match e with
  | TimeoutError => GalaxyError "BackendTimeout"
  | ClientConnectionError => GalaxyError "NetworkError"
  | ClientResponseError st =>
      if st =? 401 then GalaxyError "AuthenticationRequired"
      else if st =? 403 then GalaxyError "AccessDenied"
      else if st =? 503 then GalaxyError "BackendNotAvailable"
      else if st =? 429 then GalaxyError "TooManyRequests"
      else if st >=? 500 then GalaxyError "BackendError"
      else GalaxyError "UnknownError"
  | _ => e
  end.

Definition json_response (st : Z) (v : json) : response :=
  {| status := st; res_json := Ok v; res_text := Ok ""; res_read := Ok "" |}.

(** An error response once [raise_for_status] raised on it: aiohttp has
    released it, and its body cannot be read any more. *)
Definition released_response (st : Z) : response :=
  {| status := st; res_json := Raise ClientConnectionError;
     res_text := Raise ClientConnectionError;
     res_read := Raise ClientConnectionError |}.

(** Chunk 0 is [[a, b]], chunk 1 is [[]]. *)
Definition trove_session (a b : json) (w : world) (rq : request) : result response :=
  if String.eqb (rq_url rq) (_AUTHORITY +:+ _TROVE_CHUNK_URL "0")
  then Ok (json_response 200 (JArr [a; b]))
  else if String.eqb (rq_url rq) (_AUTHORITY +:+ _TROVE_CHUNK_URL "1")
  then Ok (json_response 200 (JArr []))
  else Raise (ClientResponseError 400).

(** The first request gets [{products: [a, b], cursor: "x"}], the second
    [{products: [c], cursor: "y"}], every later one a 404. *)
Definition products_session (a b c : json) (w : world) (rq : request)
  : result response :=
  match length (sent w) with
  | O => Ok (json_response 200 (JObj [("products", JArr [a; b]); ("cursor", JStr "x")]))
  | S O => Ok (json_response 200 (JObj [("products", JArr [c]); ("cursor", JStr "y")]))
  | _ => Ok {| status := 404; res_json := Raise JSONDecodeError;
               res_text := Ok "Not Found"; res_read := Ok "Not Found" |}
  end.

(** The first request gets two previous months, the second an empty
    [previous_months] array. *)
Definition months_session (w : world) (rq : request) : result response :=
  match length (sent w) with
  | O => Ok (json_response 200
               (JObj [("previous_months",
                       JArr [JObj [("machine_name", JStr "january_2020_choice")];
                             JObj [("machine_name", JStr "december_2019_choice")]])]))
  | _ => Ok (json_response 200 (JObj [("previous_months", JArr [])]))
  end.

(** The sign endpoint answers with a map of signed URLs, the redeem
    endpoint with a body that is not the success marker. *)
Definition download_session (w : world) (rq : request) : result response :=
  if String.eqb (rq_url rq) (_AUTHORITY +:+ _DOWNLOAD_SIGN) then
    Ok (json_response 200 (JObj [("signed_url", JStr "https://dl.humble.com/signed")]))
  else if String.eqb (rq_url rq) (_AUTHORITY +:+ _HUMBLER_REDEEM_DOWNLOAD) then
    Ok {| status := 200; res_json := Raise JSONDecodeError;
          res_text := Ok "{'success': False}"; res_read := Ok "{'success': False}" |}
  else Raise (ClientResponseError 400).

(** The session of a client that is not asked to send anything. *)
Definition offline_session (w : world) (rq : request) : result response :=
  Raise ClientConnectionError.

(** Every request fails with the HTTP status [st]. *)
Definition failing_session (st : Z) (w : world) (rq : request) : result response :=
  Raise (ClientResponseError st).

(** No escape sequence is decoded in the examples. *)
Definition no_escapes (b : string) : result string := Raise UnicodeDecodeError.

(** Every request is answered with the HTML text [page]. *)
Definition page_session (page : string) (w : world) (rq : request) : result response :=
  Ok {| status := 200; res_json := Raise JSONDecodeError;
        res_text := Ok page; res_read := Ok page |}.

(** A page with the marker for [webpack-x] followed by JSON, and a page
    without the marker whose 47th character starts a JSON value. *)
Definition page_with_marker : string :=
  "<html><body><script id=" +:+ q "webpack-x" +:+ " type="
  +:+ q "application/json" +:+ ">{" +:+ q "a" +:+ ":1}</script></body></html>".

Definition page_without_marker : string :=
  "<html><head><title>Humble</title></head><body>{" +:+ q "a"
  +:+ ":1}</body></html>".

(** No response sets a cookie: the jar stays as it is. *)
Definition no_set_cookie (w : world) (rq : request) : gmap string string :=
  cookie_jar w.

(** Every response sets the cookie [name] to [val]. *)
Definition set_cookie (name val : string) (w : world) (rq : request)
  : gmap string string :=
  <[name := val]> (cookie_jar w).

(** The n-th request is answered with the n-th entry of [answers]; there is
    no connection after that. *)
Definition scripted_session (answers : list (result response)) (w : world)
  (rq : request) : result response :=
  nth (length (sent w)) answers (Raise ClientConnectionError).

Section Client.

(** [self._session.request]: the answer of the aiohttp session to a request
    in a given world (requests issued so far, cookies held), a response or
    an exception. *)
Variable session_request : world -> request -> result response.

(** The cookie jar of the session after that exchange: aiohttp stores the
    cookies of every response it receives in the jar that
    [is_authenticated] reads. *)
Variable session_cookies : world -> request -> gmap string string.

(** The world after the session was handed [rq]. *)
Definition record_request (rq : request) (w : world) : world :=
  {| sent := sent w ++ [rq]; cookie_jar := session_cookies w rq;
     error_log := error_log w |}.

(** The exception [galaxy.http.handle_exception] raises in place of the one
    that reaches it. *)
Variable galaxy_translate : exn -> exn.

(** [str(v)] where [v] is a float, a list or a dict. *)
Variable py_repr : json -> string.

(** [yarl.URL(link).parts]. *)
Variable yarl_parts : string -> result (list string).

(** [json.JSONDecoder().raw_decode(s)]: the first JSON value of [s] and the
    index where it ends. *)
Variable raw_decode : string -> result (json * Z).

(** [json.loads(b)] on bytes. *)
Variable json_loads : string -> result json.

(** [b.decode("unicode_escape")] on bytes that hold a backslash. *)
Variable unicode_escape_decode : string -> result string.

Definition py_str (v : json) : string :=
  match v with
  | JStr s => s
  | JNull => "None"
  | JBool true => "True"
  | JBool false => "False"
  | JNum n => str_of_int n
  | _ => py_repr v
  end.

Definition session_request_m (rq : request) : M response :=
  fun w => (session_request w rq, record_request rq w).

Definition galaxy_http_handle_exception {A} (body : M A) : M A :=
  try_except body (fun e => raise (galaxy_translate e)).

(** The module's own [handle_exception]: inside galaxy's context manager,
    the body's exception is caught and logged; nothing raises it again, so
    the [with] block ends normally. *)
Definition handle_exception {R} (body : M (flow R)) : M (flow R) :=
  galaxy_http_handle_exception
    (try_except body
       (fun e => do* logger_error (LogError e) in ret Fell_through)).

Definition is_authenticated (w : world) : bool :=
  negb (Nat.eqb (size (cookie_jar w)) 0).

(** A function that falls off its end returns [None]. *)
Definition _request (method path : string) (params : list (string * string))
  (raise_for_status allow_redirects : option bool) : M (option response) :=
  let url := _AUTHORITY +:+ path in
  let* f := handle_exception
              (let* res := session_request_m
                             {| rq_method := method; rq_url := url;
                                rq_params := params;
                                rq_raise_for_status := raise_for_status;
                                rq_allow_redirects := allow_redirects |} in
               ret (Returned res)) in
  match f with
  | Returned res => ret (Some res)
  | Fell_through => ret None
  end.

Definition _is_session_valid : M bool :=
  let* f := handle_exception
              (try_except
                 (do* session_request_m
                        {| rq_method := "get";
                           rq_url := _AUTHORITY +:+ _ORDER_LIST_URL;
                           rq_params := [];
                           rq_raise_for_status := None;
                           rq_allow_redirects := None |} in
                  ret Fell_through)
                 (fun e =>
                    match e with
                    | ClientResponseError st =>
                        if st =? 401 then ret (Returned false) else raise e
                    | _ => raise e
                    end)) in
  match f with
  | Returned b => ret b
  | Fell_through => ret true
  end.

Definition _decode_user_id (_simpleauth_sess : string) : result json :=
  let info := first_segment "|" _simpleauth_sess in
  let info := info +:+ "==" in
  let? raw := b64decode info in
  let? decoded := json_loads raw in
  getitem decoded "user_id".

(** [bytes(s, "utf-8").decode("unicode_escape")]. *)
Definition unicode_escape (s : string) : result string :=
  let b := utf8_encode s in
  if contains_char "092" b then unicode_escape_decode b else Ok b.

Definition update_cookies (name val : string) : M unit :=
  fun w => (Ok tt, {| sent := sent w;
                      cookie_jar := <[name := val]> (cookie_jar w);
                      error_log := error_log w |}).

Definition authenticate (c : auth_cookie) : M json :=
  let* cookie_val := lift (unicode_escape (ac_value c)) in
  let cookie_val := remove_char "034" cookie_val in
  do* (if is_legal_key (ac_name c) then ret tt else raise CookieError) in
  do* update_cookies (ac_name c) cookie_val in
  lift (_decode_user_id cookie_val).

(** Attribute access on what [_request] returned. *)
Definition res_status (res : option response) : M Z :=
  match res with
  | Some r => ret (status r)
  | None => raise (AttributeError "status")
  end.

Definition res_json_m (res : option response) : M json :=
  match res with
  | Some r => lift (res_json r)
  | None => raise (AttributeError "json")
  end.

Definition res_text_m (res : option response) : M string :=
  match res with
  | Some r => lift (res_text r)
  | None => raise (AttributeError "text")
  end.

Definition res_read_m (res : option response) : M string :=
  match res with
  | Some r => lift (res_read r)
  | None => raise (AttributeError "read")
  end.

(** [res.raise_for_status()]. *)
Definition raise_for_status (res : option response) : M unit :=
  match res with
  | Some r => if 400 <=? status r then raise (ClientResponseError (status r))
              else ret tt
  | None => raise (AttributeError "raise_for_status")
  end.

Definition _get_trove_details (chunk_index : Z) : M json :=
  let* res := _request "get" (_TROVE_CHUNK_URL (str_of_int chunk_index)) []
                None None in
  res_json_m res.

(** get_subscription_products_with_gamekeys: the generator is either about
    to request a page or inside the [for] loop over a page's products. *)
Inductive products_state : Type :=
| ProductsFetch (cursor : json)
| ProductsLoop (res_json : json) (pending : list json).

Definition get_subscription_products_with_gamekeys : products_state :=
  ProductsFetch (JStr "").

Definition get_subscription_products_with_gamekeys_step (s : products_state)
  : M (gen_step products_state json) :=
  match s with
  | ProductsFetch cursor =>
      let* res := _request "GET" (_SUBSCRIPTION_PRODUCTS +:+ "/" +:+ py_str cursor)
                    [] (Some false) None in
      let* st := res_status res in
      if st =? 404 then ret Stop
      else
        do* handle_exception
              (do* raise_for_status res in ret (@Fell_through unit)) in
        let* res_json := res_json_m res in
        let* products := lift (getitem res_json "products") in
        let* items := lift (py_iter products) in
        ret (Continue (ProductsLoop res_json items))
  | ProductsLoop res_json (product :: rest) =>
      ret (Yield product (ProductsLoop res_json rest))
  | ProductsLoop res_json [] =>
      let* cursor := lift (getitem res_json "cursor") in
      ret (Continue (ProductsFetch cursor))
  end.

Definition get_subscription_history (from_product : json) : M (option response) :=
  _request "GET" (_SUBSCRIPTION_HISTORY (py_str from_product)) [] (Some false) None.

(** get_previous_subscription_months: about to request the months before
    [from_product], or suspended at the [yield] for [prev_month] with the
    rest of the page still to come. *)
Inductive months_state : Type :=
| MonthsFetch (from_product : json)
| MonthsLoop (prev_month : json) (pending : list json).

Definition get_previous_subscription_months (from_product : string) : months_state :=
  MonthsFetch (JStr from_product).

Definition get_previous_subscription_months_step (s : months_state)
  : M (gen_step months_state ChoiceMonth) :=
  match s with
  | MonthsFetch from_product =>
      let* res := get_subscription_history from_product in
      let* st := res_status res in
      if st =? 404 then ret Stop
      else
        do* handle_exception
              (do* raise_for_status res in ret (@Fell_through unit)) in
        let* data := res_json_m res in
        let* months := lift (getitem data "previous_months") in
        if negb (truthy months) then ret Stop
        else
          let* items := lift (py_iter months) in
          match items with
          | prev_month :: rest =>
              ret (Yield {| cm_data := prev_month |} (MonthsLoop prev_month rest))
          | [] => (* no truthy value iterates over nothing *)
              raise (UnboundLocalError "prev_month")
          end
  | MonthsLoop _ (prev_month :: rest) =>
      ret (Yield {| cm_data := prev_month |} (MonthsLoop prev_month rest))
  | MonthsLoop prev_month [] =>
      let* from_product := lift (getitem prev_month "machine_name") in
      ret (Continue (MonthsFetch from_product))
  end.

Definition webpack_marker (webpack_id : string) : string :=
  "<script id=" +:+ dquote +:+ webpack_id +:+ dquote +:+ " type=" +:+ dquote
  +:+ "application/json" +:+ dquote +:+ ">".

Definition _get_webpack_data (path webpack_id : string) : M json :=
  let* res := _request "GET" path [] None (Some false) in
  let* txt := res_text_m res in
  let search := webpack_marker webpack_id in
  let json_start := str_find txt search + len search in
  let candidate := strip (slice_from txt json_start) in
  match raw_decode candidate with
  | Ok (parsed, _) => ret parsed
  | Raise JSONDecodeError => raise (UnknownBackendResponse "cannot parse webpack data")
  | Raise e => raise e
  end.

(** get_trove_details: the state is [index]; the [index += 1] that follows
    the [yield] is part of the step that yields. *)
Definition get_trove_details (from_chunk : option Z) : Z := default 0 from_chunk.

Definition get_trove_details_step (index : Z) : M (gen_step Z json) :=
  let* chunk_details := _get_trove_details index in
  match chunk_details with
  | JArr items =>
      if Nat.eqb (length items) 0 then ret Stop
      else ret (Yield chunk_details (index + 1))
  | _ => raise (UnknownBackendResponse "Unrecognized trove chunks structure")
  end.

Definition sign_download (machine_name filename : string) : M json :=
  let* res := _request "post" _DOWNLOAD_SIGN
                [("machine_name", machine_name); ("filename", filename)]
                None None in
  res_json_m res.

Definition _reedem_download (download_machine_name : string)
  (custom_data : list (string * string)) : M unit :=
  let params := [("download", download_machine_name); ("download_page", "false")] in
  let params := dict_update params custom_data in
  let* res := _request "post" _HUMBLER_REDEEM_DOWNLOAD params None None in
  let* content := res_read_m res in
  if negb (String.eqb content redeem_success) then
    raise (UnknownBackendResponse "unexpected response while reedem trove download")
  else ret tt.

(** [yarl.URL(link).parts[-1]]. *)
Definition _filename_from_web_link (link : string) : result string :=
  let? parts := yarl_parts link in
  match last parts with
  | Some part => Ok part
  | None => Raise IndexError
  end.

Definition no_web_link : exn :=
  RuntimeError "No download web link in download struct item".

Definition sign_url_subproduct (download : DownloadStructItem)
  (download_machine_name : string) : M json :=
  match dsi_web download with
  | None => raise no_web_link
  | Some web =>
      let* filename := lift (_filename_from_web_link web) in
      let* urls := sign_download download_machine_name filename in
      do* try_except
            (_reedem_download download_machine_name
               [("download_url_file", filename)])
            (fun e => logger_error (LogErrorIgnored e)) in
      ret urls
  end.

Definition sign_url_trove (download : TroveDownload)
  (product_machine_name : string) : M json :=
  match td_web download with
  | None => raise no_web_link
  | Some web =>
      let* urls := sign_download (td_machine_name download) web in
      do* try_except
            (_reedem_download (td_machine_name download)
               [("product", product_machine_name)])
            (fun e => logger_error (LogErrorIgnored e)) in
      ret urls
  end.


(** *** The remaining fetchers and scrapers *)

Definition get_gamekeys : M (list json) :=
  let* res := _request "get" _ORDER_LIST_URL [] None None in
  let* parsed := res_json_m res in
  let* orders := lift (py_iter parsed) in
  lift (comprehension_getitem "gamekey" orders).

Definition get_order_details (gamekey : json) : M json :=
  let* res := _request "get" (_ORDER_URL (py_str gamekey))
                [("all_tpkds", "true")] None None in
  res_json_m res.

Definition get_subscriber_hub_data : M json :=
  let webpack_id := "webpack-subscriber-hub-data" in
  _get_webpack_data _SUBSCRIPTION_HOME webpack_id.

(** The [except (UnknownBackendResponse, KeyError)] clause returns [None];
    [logger.warning] leaves no trace in the error log. *)
Definition get_subscription_plan : M (option UserSubscriptionPlan) :=
  try_except
    (let* sub_hub_data := get_subscriber_hub_data in
     let* plan := lift (getitem sub_hub_data "userSubscriptionPlan") in
     ret (Some {| usp_data := plan |}))
    (fun e =>
       match e with
       | UnknownBackendResponse _ => ret None
       | KeyError _ => ret None
       | _ => raise e
       end).

Definition get_montly_trove_data : M json :=
  let webpack_id := "webpack-monthly-trove-data" in
  _get_webpack_data _SUBSCRIPTION_TROVE webpack_id.

Definition get_choice_marketing_data : M json :=
  let webpack_id := "webpack-choice-marketing-data" in
  _get_webpack_data _SUBSCRIPTION webpack_id.

Definition get_choice_content_data (product_url_path : string)
  : M ChoiceContentData :=
  let url := "subscription/" +:+ product_url_path in
  let webpack_id := "webpack-monthly-product-data" in
  let* data := _get_webpack_data url webpack_id in
  ret {| ccd_data := data |}.

Definition get_montly_content_data (product_url_path : string)
  : M MontlyContentData :=
  let url := "monthly/p/" +:+ product_url_path in
  let webpack_id := "webpack-monthly-product-data" in
  let* data := _get_webpack_data url webpack_id in
  ret {| mcd_data := data |}.

(** ** Vocabulary of the statements *)

(** The request [_request] hands to the session. *)
Definition http_request (method path : string) (params : list (string * string))
  (raise_for_status allow_redirects : option bool) : request :=
  {| rq_method := method; rq_url := _AUTHORITY +:+ path; rq_params := params;
     rq_raise_for_status := raise_for_status;
     rq_allow_redirects := allow_redirects |}.

Definition log_error (entry : log_entry) (w : world) : world :=
  {| sent := sent w; cookie_jar := cookie_jar w;
     error_log := error_log w ++ [entry] |}.

Definition trove_request (index : Z) : request :=
  http_request "get" (_TROVE_CHUNK_URL (str_of_int index)) [] None None.

(** From world [w] on, the session answers the chunk requests for [index],
    [index + 1], ... with the non-empty arrays [chunks], in this order, and
    the one after them with the empty array. *)
Fixpoint serves_chunks (w : world) (index : Z) (chunks : list (list json)) : Prop :=
  match chunks with
  | [] =>
      exists r, session_request w (trove_request index) = Ok r
                /\ res_json r = Ok (JArr [])
  | chunk :: rest =>
      chunk <> []
      /\ (exists r, session_request w (trove_request index) = Ok r
                    /\ res_json r = Ok (JArr chunk))
      /\ serves_chunks (record_request (trove_request index) w) (index + 1) rest
  end.

Definition products_request (cursor : json) : request :=
  http_request "GET" (_SUBSCRIPTION_PRODUCTS +:+ "/" +:+ py_str cursor) []
    (Some false) None.

(** The world after a page was requested and answered with [r]: the
    request is on record, and so is the error status that
    [raise_for_status] raised into [handle_exception], if any. *)
Definition after_page (rq : request) (r : response) (w : world) : world :=
  if 400 <=? status r
  then log_error (LogError (ClientResponseError (status r))) (record_request rq w)
  else record_request rq w.

(** From world [w] on, the session answers the request for [cursor] with a
    page that holds [products] and the next cursor, and so on through
    [pages]; the request after the last page gets a 404. *)
Fixpoint serves_pages (w : world) (cursor : json) (pages : list (list json * json))
  : Prop :=
  match pages with
  | [] =>
      exists r, session_request w (products_request cursor) = Ok r
                /\ status r = 404
  | (products, next) :: rest =>
      exists r body,
        session_request w (products_request cursor) = Ok r
        /\ status r <> 404
        /\ res_json r = Ok body
        /\ getitem body "products" = Ok (JArr products)
        /\ getitem body "cursor" = Ok next
        /\ serves_pages (after_page (products_request cursor) r w) next rest
  end.

(** Steps the products generator takes over [pages]: per page one to fetch
    it, one per product and one to leave the loop; one for the 404. *)
Fixpoint products_fuel (pages : list (list json * json)) : nat :=
  match pages with
  | [] => 1
  | (products, _) :: rest => S (length products + S (products_fuel rest))
  end.

Definition history_request (from_product : json) : request :=
  http_request "GET" (_SUBSCRIPTION_HISTORY (py_str from_product)) []
    (Some false) None.

(** From world [w] on, the session answers the request for the months
    before [from_product] with a page whose [previous_months] is a non-empty
    array, the last entry of which has the machine name [next], and so on
    through [pages]; the request after the last page gets a 404 or an empty
    [previous_months] array. *)
Fixpoint serves_months (w : world) (from_product : json)
  (pages : list (list json * json)) : Prop :=
  match pages with
  | [] =>
      exists r,
        session_request w (history_request from_product) = Ok r
        /\ (status r = 404
            \/ exists body, res_json r = Ok body
                            /\ getitem body "previous_months" = Ok (JArr []))
  | (months, next) :: rest =>
      exists r body last_month,
        session_request w (history_request from_product) = Ok r
        /\ status r <> 404
        /\ res_json r = Ok body
        /\ getitem body "previous_months" = Ok (JArr months)
        /\ last months = Some last_month
        /\ getitem last_month "machine_name" = Ok next
        /\ serves_months (after_page (history_request from_product) r w) next rest
  end.

(** Steps the months generator takes over [pages]: per page one per entry
    (the first entry comes with the fetch) and one to leave the loop; one
    for the end. *)
Fixpoint months_fuel (pages : list (list json * json)) : nat :=
  match pages with
  | [] => 1
  | (months, _) :: rest => length months + S (months_fuel rest)
  end.

Definition sign_request (machine_name filename : string) : request :=
  http_request "post" _DOWNLOAD_SIGN
    [("machine_name", machine_name); ("filename", filename)] None None.

Definition redeem_request (download_machine_name : string)
  (custom_data : list (string * string)) : request :=
  http_request "post" _HUMBLER_REDEEM_DOWNLOAD
    (dict_update [("download", download_machine_name); ("download_page", "false")]
       custom_data)
    None None.



(** The world after [update_cookies]. *)
Definition with_cookie (name val : string) (w : world) : world :=
  {| sent := sent w; cookie_jar := <[name := val]> (cookie_jar w);
     error_log := error_log w |}.





Definition order_list_request : request :=
  {| rq_method := "get"; rq_url := _AUTHORITY +:+ _ORDER_LIST_URL;
     rq_params := []; rq_raise_for_status := None; rq_allow_redirects := None |}.

Definition page_request (path : string) : request :=
  http_request "GET" path [] None (Some false).

(** What [_get_webpack_data] makes of the decoder's answer. *)
Definition webpack_result (decoded : result (json * Z)) : result json :=
  match decoded with
  | Ok (parsed, _) => Ok parsed
  | Raise JSONDecodeError => Raise (UnknownBackendResponse "cannot parse webpack data")
  | Raise e => Raise e
  end.

(** [m] leaves the part [proj] of the world as it found it. *)
Definition keeps {A B} (proj : world -> B) (m : M A) : Prop :=
  forall w, proj (snd (m w)) = proj w.

(** The request a step of each generator issues, if any. *)
Definition products_step_requests (s : products_state) : list request :=
  match s with
  | ProductsFetch cursor => [products_request cursor]
  | ProductsLoop _ _ => []
  end.

Definition months_step_requests (s : months_state) : list request :=
  match s with
  | MonthsFetch from_product => [history_request from_product]
  | MonthsLoop _ _ => []
  end.

Definition order_request (gamekey : json) : request :=
  http_request "get" (_ORDER_URL (py_str gamekey)) [("all_tpkds", "true")]
    None None.

(** From world [w] on, the session answers the chunk requests for [index],
    [index + 1], ... with the non-empty arrays [chunks], and for the request
    after them [res.json()] evaluates to [final]. *)
Fixpoint chunks_then (w : world) (index : Z) (chunks : list (list json))
  (final : result json) : Prop :=
  match chunks with
  | [] =>
      exists r, session_request w (trove_request index) = Ok r
                /\ res_json r = final
  | chunk :: rest =>
      chunk <> []
      /\ (exists r, session_request w (trove_request index) = Ok r
                    /\ res_json r = Ok (JArr chunk))
      /\ chunks_then (record_request (trove_request index) w) (index + 1) rest final
  end.

(** How get_trove_details ends on what is not a non-empty array. *)
Definition trove_end (final : result json) : option gen_end :=
  match final with
  | Ok (JArr []) => Some Exhausted
  | Ok (JArr (_ :: _)) => None
  | Ok _ => Some (Failed (UnknownBackendResponse "Unrecognized trove chunks structure"))
  | Raise e => Some (Failed e)
  end.

(** [Q] holds of the world after [m] whenever it holds before. *)
Definition maintains {A} (Q : world -> Prop) (m : M A) : Prop :=
  forall w, Q w -> Q (snd (m w)).

(** [P] is a property of the cookie jar that no exchange with the session
    breaks. *)
Definition session_keeps (P : gmap string string -> Prop) : Prop :=
  forall w rq, P (cookie_jar w) -> P (session_cookies w rq).

(** The outcome of [m] does not depend on the world it runs in. *)
Definition same_outcome {A} (m : M A) : Prop :=
  forall w w', fst (m w) = fst (m w').

(** The session answers a request the same way whatever was sent before
    and whatever cookies are held. *)
Definition stateless_session : Prop :=
  forall w w' rq, session_request w rq = session_request w' rq.

(** [d.get(k)] on a dict kept in insertion order. *)
Fixpoint params_get {V} (k : string) (d : list (string * V)) : option V :=
  match d with
  | [] => None
  | (k', v) :: rest => if String.eqb k' k then Some v else params_get k rest
  end.

(** [m] and [m'] do the same in every world. *)
Definition same_run {A} (m m' : M A) : Prop := forall w, m w = m' w.

(** ** Draining a generator, one step at a time *)

Lemma drain_yield {S I} (step : S -> M (gen_step S I)) fuel s w item s' w' :
  step s w = (Ok (Yield item s'), w') ->
  drain step (Datatypes.S fuel) s w
  = (item :: fst (fst (drain step fuel s' w')),
     snd (fst (drain step fuel s' w')), snd (drain step fuel s' w')).
Proof.
  intros H. cbn [drain]. rewrite H.
  destruct (drain step fuel s' w') as [[items e] w'']. reflexivity.
Qed.

Lemma drain_continue {S I} (step : S -> M (gen_step S I)) fuel s w s' w' :
  step s w = (Ok (Continue s'), w') ->
  drain step (Datatypes.S fuel) s w = drain step fuel s' w'.
Proof. intros H. cbn [drain]. rewrite H. reflexivity. Qed.

Lemma drain_stop {S I} (step : S -> M (gen_step S I)) fuel s w w' :
  step s w = (Ok Stop, w') ->
  drain step (Datatypes.S fuel) s w = ([], Exhausted, w').
Proof. intros H. cbn [drain]. rewrite H. reflexivity. Qed.

Lemma drain_raise {S I} (step : S -> M (gen_step S I)) fuel s w e w' :
  step s w = (Raise e, w') ->
  drain step (Datatypes.S fuel) s w = ([], Failed e, w').
Proof. intros H. cbn [drain]. rewrite H. reflexivity. Qed.

(** ** What one call of the client does *)

Lemma _request_answered method path params rfs ar w r :
  session_request w (http_request method path params rfs ar) = Ok r ->
  _request method path params rfs ar w
  = (Ok (Some r), record_request (http_request method path params rfs ar) w).
Proof.
  intros H. unfold _request, handle_exception, galaxy_http_handle_exception,
    try_except, bind, session_request_m.
  fold (http_request method path params rfs ar). rewrite H. reflexivity.
Qed.

Lemma _request_swallows method path params rfs ar w e :
  session_request w (http_request method path params rfs ar) = Raise e ->
  _request method path params rfs ar w
  = (Ok None,
     log_error (LogError e)
       (record_request (http_request method path params rfs ar) w)).
Proof.
  intros H. unfold _request, handle_exception, galaxy_http_handle_exception,
    try_except, bind, session_request_m.
  fold (http_request method path params rfs ar). rewrite H. reflexivity.
Qed.

(** [_request] never raises: it returns the response, or [None] after
    logging the exception. *)
Lemma _request_cases method path params rfs ar w :
  let rq := http_request method path params rfs ar in
  (exists r, session_request w rq = Ok r
             /\ _request method path params rfs ar w
                = (Ok (Some r), record_request rq w))
  \/ (exists e, session_request w rq = Raise e
                /\ _request method path params rfs ar w
                   = (Ok None, log_error (LogError e) (record_request rq w))).
Proof.
  intros rq. destruct (session_request w rq) as [r | e] eqn:H.
  - left. exists r. split; [reflexivity | now apply _request_answered].
  - right. exists e. split; [reflexivity | now apply _request_swallows].
Qed.

Lemma _get_trove_details_answered index w r :
  session_request w (trove_request index) = Ok r ->
  _get_trove_details index w
  = (res_json r, record_request (trove_request index) w).
Proof.
  intros H. unfold _get_trove_details, bind.
  rewrite (_request_answered _ _ _ _ _ _ _ H). reflexivity.
Qed.

Lemma get_trove_details_step_stop index w :
  fst (get_trove_details_step index w) = Ok Stop
  <-> fst (_get_trove_details index w) = Ok (JArr []).
Proof.
  unfold get_trove_details_step, bind.
  destruct (_get_trove_details index w) as [[chunk | e] w']; simpl.
  - destruct chunk as [| | | | | items |]; simpl; try (split; discriminate).
    destruct items as [| item items]; simpl; split; congruence.
  - split; discriminate.
Qed.

Lemma get_trove_details_step_yield index w items :
  items <> [] ->
  fst (_get_trove_details index w) = Ok (JArr items) ->
  get_trove_details_step index w
  = (Ok (Yield (JArr items) (index + 1)), snd (_get_trove_details index w)).
Proof.
  intros Hne H. unfold get_trove_details_step, bind.
  destruct (_get_trove_details index w) as [[chunk | e] w']; simpl in *;
    [| discriminate].
  injection H as ->. destruct items; [congruence | reflexivity].
Qed.

Lemma drain_trove_chunks chunks : forall w index extra,
  serves_chunks w index chunks ->
  exists w',
    drain get_trove_details_step (S (length chunks + extra)) index w
    = (map JArr chunks, Exhausted, w')
    /\ sent w'
       = sent w ++ map trove_request (seqZ index (Z.of_nat (S (length chunks)))).
Proof.
  induction chunks as [| chunk rest IH]; intros w index extra Hs.
  - destruct Hs as (r & Hr & Hj).
    exists (record_request (trove_request index) w).
    pose proof (_get_trove_details_answered _ _ _ Hr) as Hg. rewrite Hj in Hg.
    split; [| reflexivity].
    apply drain_stop. unfold get_trove_details_step, bind. rewrite Hg.
    reflexivity.
  - destruct Hs as (Hne & (r & Hr & Hj) & Hrest).
    destruct (IH _ _ extra Hrest) as (w' & Hd & Hsent).
    exists w'.
    pose proof (_get_trove_details_answered _ _ _ Hr) as Hg. rewrite Hj in Hg.
    split.
    + cbn [length Nat.add].
      erewrite drain_yield.
      2:{ rewrite (get_trove_details_step_yield index w chunk Hne)
            by (rewrite Hg; reflexivity).
          rewrite Hg. cbn [snd]. reflexivity. }
      rewrite Hd. reflexivity.
    + rewrite Hsent. cbn [sent record_request].
      rewrite <- app_assoc. f_equal.
      rewrite (seqZ_cons index) by lia. cbn [map app].
      replace (Z.succ index) with (index + 1) by lia.
      replace (Z.pred (Z.of_nat (S (length (chunk :: rest)))))
        with (Z.of_nat (S (length rest))) by (cbn [length]; lia).
      reflexivity.
Qed.

Lemma raise_for_status_swallowed r w :
  handle_exception (do* raise_for_status (Some r) in ret (@Fell_through unit)) w
  = (Ok Fell_through,
     if 400 <=? status r
     then log_error (LogError (ClientResponseError (status r))) w
     else w).
Proof.
  unfold handle_exception, galaxy_http_handle_exception, try_except, bind,
    raise_for_status.
  destruct (400 <=? status r); reflexivity.
Qed.

Lemma products_fetch_page cursor w r body products :
  session_request w (products_request cursor) = Ok r ->
  status r <> 404 ->
  res_json r = Ok body ->
  getitem body "products" = Ok (JArr products) ->
  get_subscription_products_with_gamekeys_step (ProductsFetch cursor) w
  = (Ok (Continue (ProductsLoop body products)),
     after_page (products_request cursor) r w).
Proof.
  intros Hr Hst Hj Hp.
  unfold get_subscription_products_with_gamekeys_step.
  unfold bind at 1. unfold products_request in Hr.
  rewrite (_request_answered _ _ _ _ _ _ _ Hr).
  unfold bind at 1. cbn [res_status ret].
  destruct (status r =? 404) eqn:E; [apply Z.eqb_eq in E; contradiction |].
  unfold bind at 1. rewrite raise_for_status_swallowed.
  unfold bind, res_json_m, lift. rewrite Hj, Hp. cbn [py_iter].
  unfold after_page, products_request.
  destruct (400 <=? status r); reflexivity.
Qed.

Lemma products_fetch_404 cursor w r :
  session_request w (products_request cursor) = Ok r ->
  status r = 404 ->
  get_subscription_products_with_gamekeys_step (ProductsFetch cursor) w
  = (Ok Stop, record_request (products_request cursor) w).
Proof.
  intros Hr Hst.
  unfold get_subscription_products_with_gamekeys_step.
  unfold bind at 1. unfold products_request in Hr.
  rewrite (_request_answered _ _ _ _ _ _ _ Hr).
  unfold bind at 1. cbn [res_status ret]. rewrite Hst. reflexivity.
Qed.

Lemma drain_products_loop body products : forall fuel w,
  drain get_subscription_products_with_gamekeys_step (length products + fuel)
    (ProductsLoop body products) w
  = (products
     ++ fst (fst (drain get_subscription_products_with_gamekeys_step fuel
                    (ProductsLoop body []) w)),
     snd (fst (drain get_subscription_products_with_gamekeys_step fuel
                 (ProductsLoop body []) w)),
     snd (drain get_subscription_products_with_gamekeys_step fuel
            (ProductsLoop body []) w)).
Proof.
  induction products as [| product rest IH]; intros fuel w.
  - cbn [length Nat.add app].
    destruct (drain _ fuel (ProductsLoop body []) w) as [[items e] w'].
    reflexivity.
  - cbn [length Nat.add]. erewrite drain_yield by reflexivity.
    rewrite IH. reflexivity.
Qed.

Lemma drain_products_pages pages : forall w cursor extra,
  serves_pages w cursor pages ->
  exists w',
    drain get_subscription_products_with_gamekeys_step
      (products_fuel pages + extra) (ProductsFetch cursor) w
    = (concat (map fst pages), Exhausted, w')
    /\ sent w' = sent w ++ map products_request (cursor :: map snd pages).
Proof.
  induction pages as [| [products next] rest IH]; intros w cursor extra Hs.
  - destruct Hs as (r & Hr & Hst).
    exists (record_request (products_request cursor) w). split; [| reflexivity].
    cbn [products_fuel Nat.add]. apply drain_stop.
    now apply (products_fetch_404 cursor w r).
  - destruct Hs as (r & body & Hr & Hst & Hj & Hp & Hc & Hrest).
    destruct (IH _ _ extra Hrest) as (w' & Hd & Hsent).
    exists w'. split.
    + cbn [products_fuel Nat.add].
      erewrite drain_continue by (eapply products_fetch_page; eassumption).
      rewrite <- Nat.add_assoc, drain_products_loop.
      cbn [Nat.add].
      erewrite drain_continue.
      2:{ cbn [get_subscription_products_with_gamekeys_step].
          unfold bind, lift. rewrite Hc. reflexivity. }
      rewrite Hd. reflexivity.
    + rewrite Hsent. cbn [map snd].
      assert (Hw : sent (after_page (products_request cursor) r w)
                   = sent w ++ [products_request cursor]).
      { unfold after_page. destruct (400 <=? status r); reflexivity. }
      rewrite Hw, <- app_assoc. reflexivity.
Qed.

(** C1 (amended). Started at the caller's chunk index (0 when none is
    given), against a session that answers the successive chunk requests
    with the non-empty arrays [chunks] and then with the empty array,
    get_trove_details yields each array whole, one item per chunk and in
    this order, and then returns without an error; it has asked for the
    indices [from_chunk], [from_chunk + 1], ... one request each. In any
    world, a step ends the generator without an error exactly when the chunk
    it fetched is the empty array. *)
Theorem get_trove_details_yields_whole_chunks
  (from_chunk : option Z) (chunks : list (list json)) (w : world) (extra : nat) :
  serves_chunks w (default 0 from_chunk) chunks ->
  (exists w',
     drain get_trove_details_step (S (length chunks + extra))
       (get_trove_details from_chunk) w
     = (map JArr chunks, Exhausted, w')
     /\ sent w'
        = sent w ++ map trove_request
                      (seqZ (default 0 from_chunk) (Z.of_nat (S (length chunks)))))
  /\ (forall index w0,
        fst (get_trove_details_step index w0) = Ok Stop
        <-> fst (_get_trove_details index w0) = Ok (JArr [])).
Proof.
  intros Hs. split.
  - unfold get_trove_details.
    destruct (drain_trove_chunks chunks w (default 0 from_chunk) extra Hs)
      as (w' & Hd & Hsent).
    exists w'. split; assumption.
  - intros index w0. apply get_trove_details_step_stop.
Qed.

(** C2. Against a session that answers the successive requests with the
    pages [pages] (each an object with a [products] array and a [cursor])
    and the request after them with a 404,
    get_subscription_products_with_gamekeys yields every product of every
    page, in order, and then returns; the first request carries the empty
    cursor, each later one the [cursor] field of the page before it, and
    the cursor is appended to the endpoint after a slash. *)
Theorem get_subscription_products_follows_cursor
  (pages : list (list json * json)) (w : world) (extra : nat) :
  serves_pages w (JStr "") pages ->
  (exists w',
     drain get_subscription_products_with_gamekeys_step
       (products_fuel pages + extra) get_subscription_products_with_gamekeys w
     = (concat (map fst pages), Exhausted, w')
     /\ sent w' = sent w ++ map products_request (JStr "" :: map snd pages))
  /\ (forall cursor : string,
        products_request (JStr cursor)
        = {| rq_method := "GET";
             rq_url := _AUTHORITY +:+ _SUBSCRIPTION_PRODUCTS +:+ "/" +:+ cursor;
             rq_params := [];
             rq_raise_for_status := Some false;
             rq_allow_redirects := None |}).
Proof.
  intros Hs. split.
  - unfold get_subscription_products_with_gamekeys.
    destruct (drain_products_pages pages w (JStr "") extra Hs) as (w' & Hd & Hsent).
    exists w'. split; assumption.
  - intros cursor. reflexivity.
Qed.

Lemma months_fetch_404 from_product w r :
  session_request w (history_request from_product) = Ok r ->
  status r = 404 ->
  get_previous_subscription_months_step (MonthsFetch from_product) w
  = (Ok Stop, record_request (history_request from_product) w).
Proof.
  intros Hr Hst.
  unfold get_previous_subscription_months_step, get_subscription_history.
  unfold bind at 1. unfold history_request in Hr.
  rewrite (_request_answered _ _ _ _ _ _ _ Hr).
  unfold bind at 1. cbn [res_status ret]. rewrite Hst. reflexivity.
Qed.

Lemma months_fetch_page from_product w r body months :
  session_request w (history_request from_product) = Ok r ->
  status r <> 404 ->
  res_json r = Ok body ->
  getitem body "previous_months" = Ok (JArr months) ->
  get_previous_subscription_months_step (MonthsFetch from_product) w
  = (Ok match months with
        | [] => Stop
        | month :: rest => Yield {| cm_data := month |} (MonthsLoop month rest)
        end,
     after_page (history_request from_product) r w).
Proof.
  intros Hr Hst Hj Hp.
  unfold get_previous_subscription_months_step, get_subscription_history.
  unfold bind at 1. unfold history_request in Hr.
  rewrite (_request_answered _ _ _ _ _ _ _ Hr).
  unfold bind at 1. cbn [res_status ret].
  destruct (status r =? 404) eqn:E; [apply Z.eqb_eq in E; contradiction |].
  unfold bind at 1. rewrite raise_for_status_swallowed.
  unfold bind, res_json_m, lift. rewrite Hj, Hp.
  unfold after_page, history_request.
  destruct months as [| month rest]; cbn [truthy length Nat.eqb negb py_iter];
    destruct (400 <=? status r); reflexivity.
Qed.

Lemma drain_months_loop pending : forall prev fuel w,
  drain get_previous_subscription_months_step (length pending + fuel)
    (MonthsLoop prev pending) w
  = (map Build_ChoiceMonth pending
     ++ fst (fst (drain get_previous_subscription_months_step fuel
                    (MonthsLoop (default prev (last pending)) []) w)),
     snd (fst (drain get_previous_subscription_months_step fuel
                 (MonthsLoop (default prev (last pending)) []) w)),
     snd (drain get_previous_subscription_months_step fuel
            (MonthsLoop (default prev (last pending)) []) w)).
Proof.
  induction pending as [| month rest IH]; intros prev fuel w.
  - cbn [length Nat.add map app last default].
    destruct (drain _ fuel (MonthsLoop prev []) w) as [[items e] w'].
    reflexivity.
  - cbn [length Nat.add]. erewrite drain_yield by reflexivity.
    rewrite IH. rewrite last_cons.
    destruct (last rest); reflexivity.
Qed.

Lemma drain_months_pages pages : forall w from_product extra,
  serves_months w from_product pages ->
  exists w',
    drain get_previous_subscription_months_step (months_fuel pages + extra)
      (MonthsFetch from_product) w
    = (map Build_ChoiceMonth (concat (map fst pages)), Exhausted, w')
    /\ sent w' = sent w ++ map history_request (from_product :: map snd pages).
Proof.
  induction pages as [| [months next] rest IH]; intros w from_product extra Hs.
  - destruct Hs as (r & Hr & [Hst | (body & Hj & Hp)]).
    + exists (record_request (history_request from_product) w).
      split; [| reflexivity].
      cbn [months_fuel Nat.add]. apply drain_stop.
      now apply (months_fetch_404 from_product w r).
    + destruct (Z.eq_dec (status r) 404) as [Hst | Hst].
      * exists (record_request (history_request from_product) w).
        split; [| reflexivity].
        cbn [months_fuel Nat.add]. apply drain_stop.
        now apply (months_fetch_404 from_product w r).
      * exists (after_page (history_request from_product) r w). split.
        -- cbn [months_fuel Nat.add]. apply drain_stop.
           now rewrite (months_fetch_page from_product w r body []).
        -- unfold after_page. destruct (400 <=? status r); reflexivity.
  - destruct Hs as (r & body & last_month & Hr & Hst & Hj & Hp & Hl & Hn & Hrest).
    destruct (IH _ _ extra Hrest) as (w' & Hd & Hsent).
    exists w'. split.
    + destruct months as [| month pending]; [discriminate |].
      cbn [months_fuel length Nat.add].
      erewrite drain_yield
        by (rewrite (months_fetch_page from_product w r body (month :: pending));
            [reflexivity | assumption ..]).
      rewrite <- Nat.add_assoc, drain_months_loop.
      rewrite last_cons in Hl.
      assert (Hlast : default month (last pending) = last_month)
        by (destruct (last pending); simpl; congruence).
      rewrite Hlast. cbn [Nat.add].
      erewrite drain_continue.
      2:{ cbn [get_previous_subscription_months_step].
          unfold bind, lift. rewrite Hn. reflexivity. }
      rewrite Hd. cbn [fst snd map concat]. rewrite map_app. reflexivity.
    + rewrite Hsent. cbn [map snd].
      assert (Hw : sent (after_page (history_request from_product) r w)
                   = sent w ++ [history_request from_product]).
      { unfold after_page. destruct (400 <=? status r); reflexivity. }
      rewrite Hw, <- app_assoc. reflexivity.
Qed.

(** C8. Against a session that answers the successive history requests
    with pages whose [previous_months] arrays are non-empty and then with a
    404 or an empty [previous_months] array,
    get_previous_subscription_months yields every entry of every page
    wrapped in a ChoiceMonth, in order, and then returns; the first request
    asks from the caller's product, each later one from the machine name of
    the last entry of the page before it. A request answered with a 404
    ends the generator, and one answered otherwise with a [previous_months]
    array ends it exactly when that array is empty. *)
Theorem get_previous_subscription_months_follows_last_entry
  (from_product : string) (pages : list (list json * json)) (w : world)
  (extra : nat) :
  serves_months w (JStr from_product) pages ->
  (exists w',
     drain get_previous_subscription_months_step (months_fuel pages + extra)
       (get_previous_subscription_months from_product) w
     = (map Build_ChoiceMonth (concat (map fst pages)), Exhausted, w')
     /\ sent w'
        = sent w ++ map history_request (JStr from_product :: map snd pages))
  /\ (forall from w0 r,
        session_request w0 (history_request from) = Ok r ->
        (status r = 404 ->
         fst (get_previous_subscription_months_step (MonthsFetch from) w0) = Ok Stop)
        /\ (forall body months,
              status r <> 404 ->
              res_json r = Ok body ->
              getitem body "previous_months" = Ok (JArr months) ->
              (fst (get_previous_subscription_months_step (MonthsFetch from) w0)
               = Ok Stop
               <-> months = [])))
  /\ (forall name : string,
        history_request (JStr name)
        = {| rq_method := "GET";
             rq_url := _AUTHORITY
                       +:+ "api/v1/subscriptions/humble_monthly/history?from_product="
                       +:+ name;
             rq_params := [];
             rq_raise_for_status := Some false;
             rq_allow_redirects := None |}).
Proof.
  intros Hs. split; [| split].
  - unfold get_previous_subscription_months.
    destruct (drain_months_pages pages w (JStr from_product) extra Hs)
      as (w' & Hd & Hsent).
    exists w'. split; assumption.
  - intros from w0 r Hr. split.
    + intros Hst. now rewrite (months_fetch_404 from w0 r).
    + intros body months Hst Hj Hp.
      rewrite (months_fetch_page from w0 r body months) by assumption.
      destruct months; cbn [fst]; split; congruence.
  - intros name. reflexivity.
Qed.

(** *** The download workflow *)

Lemma _request_sent method path params rfs ar w :
  sent (snd (_request method path params rfs ar w))
  = sent w ++ [http_request method path params rfs ar].
Proof.
  destruct (_request_cases method path params rfs ar w)
    as [(r & _ & ->) | (e & _ & ->)]; reflexivity.
Qed.

Lemma sign_download_sent machine_name filename w :
  sent (snd (sign_download machine_name filename w))
  = sent w ++ [sign_request machine_name filename].
Proof.
  unfold sign_download, bind.
  pose proof (_request_sent "post" _DOWNLOAD_SIGN
                [("machine_name", machine_name); ("filename", filename)]
                None None w) as Hs.
  destruct (_request "post" _DOWNLOAD_SIGN _ None None w) as [[res | e] w1];
    cbn [snd] in *; [| exact Hs].
  destruct res as [r |]; cbn [res_json_m lift raise snd]; exact Hs.
Qed.

Lemma _reedem_download_sent name custom_data w :
  sent (snd (_reedem_download name custom_data w))
  = sent w ++ [redeem_request name custom_data].
Proof.
  unfold _reedem_download, bind.
  pose proof (_request_sent "post" _HUMBLER_REDEEM_DOWNLOAD
                (dict_update [("download", name); ("download_page", "false")]
                   custom_data) None None w) as Hs.
  destruct (_request "post" _HUMBLER_REDEEM_DOWNLOAD _ None None w)
    as [[res | e] w1]; cbn [snd] in *; [| exact Hs].
  destruct res as [r |]; cbn [res_read_m lift raise snd]; [| exact Hs].
  destruct (res_read r) as [content | e]; cbn [snd]; [| exact Hs].
  destruct (negb (String.eqb content redeem_success)); exact Hs.
Qed.

(** The redeem call is wrapped so that no exception of it gets out. *)
Lemma redeem_suppressed name custom_data (urls : json) w :
  exists w',
    (do* try_except (_reedem_download name custom_data)
           (fun e => logger_error (LogErrorIgnored e)) in
     ret urls) w = (Ok urls, w')
    /\ sent w' = sent w ++ [redeem_request name custom_data]
    /\ forall e w2, _reedem_download name custom_data w = (Raise e, w2) ->
                    w' = log_error (LogErrorIgnored e) w2.
Proof.
  unfold bind, try_except.
  pose proof (_reedem_download_sent name custom_data w) as Hs.
  destruct (_reedem_download name custom_data w) as [[[] | e] w2];
    cbn [snd] in Hs.
  - exists w2. split; [reflexivity |]. split; [exact Hs |]. discriminate.
  - exists (log_error (LogErrorIgnored e) w2).
    split; [reflexivity |]. split; [exact Hs |].
    intros e' w2' [= -> ->]. reflexivity.
Qed.

Lemma _reedem_download_unexpected_body name custom_data w r content :
  session_request w (redeem_request name custom_data) = Ok r ->
  res_read r = Ok content ->
  content <> redeem_success ->
  _reedem_download name custom_data w
  = (Raise (UnknownBackendResponse
              "unexpected response while reedem trove download"),
     record_request (redeem_request name custom_data) w).
Proof.
  intros Hr Hc Hne. unfold _reedem_download, bind. unfold redeem_request in Hr.
  rewrite (_request_answered _ _ _ _ _ _ _ Hr).
  cbn [res_read_m lift]. rewrite Hc.
  destruct (String.eqb content redeem_success) eqn:E.
  - apply String.eqb_eq in E. contradiction.
  - reflexivity.
Qed.

(** C3 (amended). A download record whose web link is absent ([None]) makes
    sign_url_subproduct and sign_url_trove raise the precondition error
    with the world untouched, so before any request; a link that is
    present, the empty string included, passes the check: sign_url_trove
    goes on to issue the sign request with it, and so does
    sign_url_subproduct with the last path segment yarl finds in it. *)
Theorem sign_url_requires_present_web_link
  (download_machine_name machine_name product_machine_name : string) (w : world) :
  sign_url_subproduct {| dsi_web := None |} download_machine_name w
  = (Raise no_web_link, w)
  /\ sign_url_trove {| td_machine_name := machine_name; td_web := None |}
       product_machine_name w
     = (Raise no_web_link, w)
  /\ (forall web : string,
        exists later,
          sent (snd (sign_url_trove
                       {| td_machine_name := machine_name; td_web := Some web |}
                       product_machine_name w))
          = sent w ++ sign_request machine_name web :: later)
  /\ (forall web parts filename,
        yarl_parts web = Ok parts ->
        last parts = Some filename ->
        exists later,
          sent (snd (sign_url_subproduct {| dsi_web := Some web |}
                       download_machine_name w))
          = sent w ++ sign_request download_machine_name filename :: later).
Proof.
  split; [reflexivity |]. split; [reflexivity |]. split.
  - intros web. unfold sign_url_trove. cbn [td_web td_machine_name].
    unfold bind at 1.
    pose proof (sign_download_sent machine_name web w) as Hs.
    destruct (sign_download machine_name web w) as [[urls | e] w1];
      cbn [snd] in Hs.
    + destruct (redeem_suppressed machine_name
                  [("product", product_machine_name)] urls w1)
        as (w' & -> & Hs' & _).
      cbn [snd]. rewrite Hs', Hs, <- app_assoc. eexists. reflexivity.
    + exists []. exact Hs.
  - intros web parts filename Hparts Hlast.
    unfold sign_url_subproduct. cbn [dsi_web].
    unfold bind at 1. unfold lift at 1, _filename_from_web_link.
    rewrite Hparts. cbn [result_bind]. rewrite Hlast.
    unfold bind at 1.
    pose proof (sign_download_sent download_machine_name filename w) as Hs.
    destruct (sign_download download_machine_name filename w)
      as [[urls | e] w1]; cbn [snd] in Hs.
    + destruct (redeem_suppressed download_machine_name
                  [("download_url_file", filename)] urls w1)
        as (w' & -> & Hs' & _).
      cbn [snd]. rewrite Hs', Hs, <- app_assoc. eexists. reflexivity.
    + exists []. exact Hs.
Qed.

Lemma sign_then_redeem_sent machine_name filename custom_data w :
  sent (snd ((let* urls := sign_download machine_name filename in
              do* try_except (_reedem_download machine_name custom_data)
                    (fun e => logger_error (LogErrorIgnored e)) in
              ret urls) w))
  = sent w ++ sign_request machine_name filename
      :: match fst (sign_download machine_name filename w) with
         | Ok _ => [redeem_request machine_name custom_data]
         | Raise _ => []
         end.
Proof.
  unfold bind at 1.
  pose proof (sign_download_sent machine_name filename w) as Hs.
  destruct (sign_download machine_name filename w) as [[urls | e] w1];
    cbn [snd fst] in *; [| exact Hs].
  destruct (redeem_suppressed machine_name custom_data urls w1)
    as (w' & -> & Hs' & _).
  cbn [snd]. now rewrite Hs', Hs, <- app_assoc.
Qed.

(** What sign_download makes of the session's answer to the sign request. *)
Lemma sign_download_cases machine_name filename w :
  sign_download machine_name filename w
  = match session_request w (sign_request machine_name filename) with
    | Ok r => (res_json r, record_request (sign_request machine_name filename) w)
    | Raise e =>
        (Raise (AttributeError "json"),
         log_error (LogError e)
           (record_request (sign_request machine_name filename) w))
    end.
Proof.
  unfold sign_download, sign_request.
  destruct (session_request w
              (http_request "post" _DOWNLOAD_SIGN
                 [("machine_name", machine_name); ("filename", filename)]
                 None None)) as [r | e] eqn:H.
  - unfold bind. rewrite (_request_answered _ _ _ _ _ _ _ H). reflexivity.
  - unfold bind. rewrite (_request_swallows _ _ _ _ _ _ _ H). reflexivity.
Qed.

(** C5. In every execution of sign_url_subproduct in which the sign call
    returns the map [urls], and in every execution of sign_url_trove in
    which its sign call does, the operation returns [urls], whatever the
    redeem call does: an exception of the redeem call, the one raised for a
    body that differs from the success marker included, is logged as
    ignored and goes no further. *)
Theorem sign_url_suppresses_redeem_failure :
  (forall (web filename download_machine_name : string) (w w1 : world)
          (urls : json),
      _filename_from_web_link web = Ok filename ->
      sign_download download_machine_name filename w = (Ok urls, w1) ->
      fst (sign_url_subproduct {| dsi_web := Some web |} download_machine_name w)
      = Ok urls
      /\ forall e w',
           _reedem_download download_machine_name
             [("download_url_file", filename)] w1
           = (Raise e, w') ->
           sign_url_subproduct {| dsi_web := Some web |} download_machine_name w
           = (Ok urls, log_error (LogErrorIgnored e) w'))
  /\ (forall (web machine_name product_machine_name : string) (w w2 : world)
             (urls : json),
        sign_download machine_name web w = (Ok urls, w2) ->
        fst (sign_url_trove {| td_machine_name := machine_name; td_web := Some web |}
               product_machine_name w)
        = Ok urls
        /\ forall e w',
             _reedem_download machine_name [("product", product_machine_name)] w2
             = (Raise e, w') ->
             sign_url_trove {| td_machine_name := machine_name; td_web := Some web |}
               product_machine_name w
             = (Ok urls, log_error (LogErrorIgnored e) w'))
  /\ (forall name custom_data w0 r content,
        session_request w0 (redeem_request name custom_data) = Ok r ->
        res_read r = Ok content ->
        content <> redeem_success ->
        fst (_reedem_download name custom_data w0)
        = Raise (UnknownBackendResponse
                   "unexpected response while reedem trove download")).
Proof.
  split; [| split].
  - intros web filename download_machine_name w w1 urls Hf Hsign.
    destruct (redeem_suppressed download_machine_name
                [("download_url_file", filename)] urls w1) as (w' & Hrun & _ & Hlog).
    assert (Heq : sign_url_subproduct {| dsi_web := Some web |}
                    download_machine_name w = (Ok urls, w')).
    { unfold sign_url_subproduct. cbn [dsi_web].
      unfold bind at 1. unfold lift at 1. rewrite Hf.
      unfold bind at 1. rewrite Hsign. exact Hrun. }
    rewrite Heq. split; [reflexivity |].
    intros e w'' He. rewrite (Hlog e w'' He). reflexivity.
  - intros web machine_name product_machine_name w w2 urls Hsign.
    destruct (redeem_suppressed machine_name
                [("product", product_machine_name)] urls w2) as (w' & Hrun & _ & Hlog).
    assert (Heq : sign_url_trove
                    {| td_machine_name := machine_name; td_web := Some web |}
                    product_machine_name w = (Ok urls, w')).
    { unfold sign_url_trove. cbn [td_web td_machine_name].
      unfold bind at 1. rewrite Hsign. exact Hrun. }
    rewrite Heq. split; [reflexivity |].
    intros e w'' He. rewrite (Hlog e w'' He). reflexivity.
  - intros name custom_data w0 r content Hr Hc Hne.
    now rewrite (_reedem_download_unexpected_body name custom_data w0 r content).
Qed.

(** C10. sign_url_trove on a record with a web link hands the session the
    sign request first, a POST to the sign endpoint whose [machine_name]
    and [filename] are the record's own machine name and web link, and
    returns what that request gives: the JSON of the response, or the
    exception of reading it. So it returns what sign_download returns for
    these two fields. The product machine name goes into the redeem
    request, which is sent only after the sign call returned, and has no
    part in the result. *)
Theorem sign_url_trove_signs_the_download
  (machine_name web product_machine_name : string) (w : world) :
  let download := {| td_machine_name := machine_name; td_web := Some web |} in
  let sign := {| rq_method := "post";
                 rq_url := _AUTHORITY +:+ "api/v1/user/download/sign";
                 rq_params := [("machine_name", machine_name); ("filename", web)];
                 rq_raise_for_status := None;
                 rq_allow_redirects := None |} in
  let redeem := {| rq_method := "post";
                   rq_url := _AUTHORITY +:+ "humbler/redeemdownload";
                   rq_params := [("download", machine_name);
                                 ("download_page", "false");
                                 ("product", product_machine_name)];
                   rq_raise_for_status := None;
                   rq_allow_redirects := None |} in
  let signed := match session_request w sign with
                | Ok r => res_json r
                | Raise _ => Raise (AttributeError "json")
                end in
  fst (sign_url_trove download product_machine_name w) = signed
  /\ sent (snd (sign_url_trove download product_machine_name w))
     = sent w ++ sign :: match signed with
                         | Ok _ => [redeem]
                         | Raise _ => []
                         end
  /\ fst (sign_url_trove download product_machine_name w)
     = fst (sign_download machine_name web w)
  /\ (forall other_product : string,
        fst (sign_url_trove download other_product w)
        = fst (sign_url_trove download product_machine_name w)).
Proof.
  intros download sign redeem signed.
  assert (Hres : forall product,
             fst (sign_url_trove download product w)
             = fst (sign_download machine_name web w)).
  { intros product. unfold sign_url_trove, download.
    cbn [td_web td_machine_name]. unfold bind at 1.
    destruct (sign_download machine_name web w) as [[urls | e] w1];
      [| reflexivity].
    destruct (redeem_suppressed machine_name [("product", product)] urls w1)
      as (w' & -> & _). reflexivity. }
  assert (Hsigned : fst (sign_download machine_name web w) = signed).
  { rewrite sign_download_cases. subst signed.
    change (sign_request machine_name web) with sign.
    destruct (session_request w sign); reflexivity. }
  split; [now rewrite Hres |].
  split.
  - unfold sign_url_trove, download. cbn [td_web td_machine_name].
    rewrite sign_then_redeem_sent, Hsigned. reflexivity.
  - split; [apply Hres |]. intros other_product. now rewrite !Hres.
Qed.

(** *** base64: unpadded text decodes once ["=="] is appended *)



















Lemma append_String c s t : String c s +:+ t = String c (s +:+ t).
Proof. reflexivity. Qed.













Lemma first_segment_app sep s tail :
  all_chars (fun c => negb (Ascii.eqb c sep)) s = true ->
  tail = EmptyString \/ (exists rest, tail = String sep rest) ->
  first_segment sep (s +:+ tail) = s.
Proof.
  unfold first_segment. intros Hs Htail.
  induction s as [| c s IH].
  - destruct Htail as [-> | (rest & ->)]; [reflexivity |].
    change ("" +:+ String sep rest) with (String sep rest).
    cbn [split_on]. rewrite Ascii.eqb_refl. reflexivity.
  - cbn [all_chars] in Hs. apply andb_true_iff in Hs. destruct Hs as (Hc & Hs).
    rewrite append_String. cbn [split_on].
    apply negb_true_iff in Hc. rewrite Hc.
    specialize (IH Hs).
    destruct (split_on sep (s +:+ tail)) as [| segment segments];
      cbn [hd] in *; now rewrite IH.
Qed.





Lemma authenticate_runs c w cookie_val :
  unicode_escape (ac_value c) = Ok cookie_val ->
  is_legal_key (ac_name c) = true ->
  authenticate c w
  = (_decode_user_id (remove_char "034" cookie_val),
     with_cookie (ac_name c) (remove_char "034" cookie_val) w).
Proof.
  intros Hv Hk. unfold authenticate, bind, lift. rewrite Hv. cbv zeta.
  rewrite Hk. reflexivity.
Qed.

Lemma is_authenticated_with_cookie name val w :
  is_authenticated (with_cookie name val w) = true.
Proof.
  unfold is_authenticated, with_cookie. cbn [cookie_jar].
  apply negb_true_iff, Nat.eqb_neq. intros H.
  apply map_size_empty_iff in H. now apply insert_non_empty in H.
Qed.



(** *** The session manager *)


(** C9. When the cookie is accepted and the user-id decoding raises,
    authenticate raises the same exception with the cookie already in the
    jar: is_authenticated is true afterwards. *)
Theorem authenticate_failure_keeps_cookie
  (c : auth_cookie) (w : world) (cookie_val : string) (e : exn) :
  unicode_escape (ac_value c) = Ok cookie_val ->
  is_legal_key (ac_name c) = true ->
  _decode_user_id (remove_char "034" cookie_val) = Raise e ->
  exists w',
    authenticate c w = (Raise e, w')
    /\ cookie_jar w' = <[ac_name c := remove_char "034" cookie_val]> (cookie_jar w)
    /\ is_authenticated w' = true.
Proof.
  intros Hv Hk He.
  exists (with_cookie (ac_name c) (remove_char "034" cookie_val) w).
  rewrite (authenticate_runs c w cookie_val Hv Hk), He.
  split; [reflexivity |]. split; [reflexivity |].
  apply is_authenticated_with_cookie.
Qed.

Lemma _is_session_valid_cases w :
  _is_session_valid w
  = match session_request w order_list_request with
    | Ok _ => (Ok true, record_request order_list_request w)
    | Raise (ClientResponseError st) =>
        if st =? 401 then (Ok false, record_request order_list_request w)
        else (Ok true,
              log_error (LogError (ClientResponseError st))
                (record_request order_list_request w))
    | Raise e =>
        (Ok true, log_error (LogError e) (record_request order_list_request w))
    end.
Proof.
  unfold _is_session_valid, handle_exception, galaxy_http_handle_exception,
    try_except, bind, session_request_m.
  fold order_list_request.
  destruct (session_request w order_list_request) as [r | e]; [reflexivity |].
  destruct e; try reflexivity.
  match goal with
  | |- context [?st =? 401] => destruct (st =? 401); reflexivity
  end.
Qed.

(** C7, what the code does where the claim fails: when the order-list
    request raises anything but the 401 response error, _is_session_valid
    logs the exception and returns true; nothing is raised. *)
Theorem _is_session_valid_turns_errors_into_true (w : world) (e : exn) :
  session_request w order_list_request = Raise e ->
  e <> ClientResponseError 401 ->
  _is_session_valid w
  = (Ok true, log_error (LogError e) (record_request order_list_request w)).
Proof.
  intros Hr Hne. rewrite _is_session_valid_cases, Hr.
  destruct e as [st | | | | | | | | | | | | | | |]; try reflexivity.
  destruct (st =? 401) eqn:E; [| reflexivity].
  apply Z.eqb_eq in E. subst. contradiction.
Qed.

(** *** The webpack scraper *)

Lemma _get_webpack_data_answered path webpack_id w r txt :
  session_request w (page_request path) = Ok r ->
  res_text r = Ok txt ->
  _get_webpack_data path webpack_id w
  = (webpack_result
       (raw_decode
          (strip (slice_from txt
                    (str_find txt (webpack_marker webpack_id)
                     + len (webpack_marker webpack_id))))),
     record_request (page_request path) w).
Proof.
  intros Hr Ht. unfold _get_webpack_data, bind. unfold page_request in Hr.
  rewrite (_request_answered _ _ _ _ _ _ _ Hr).
  cbn [res_text_m lift]. rewrite Ht. cbv zeta.
  destruct (raw_decode _) as [[parsed stop] | e]; [reflexivity |].
  destruct e; reflexivity.
Qed.

(** C4, what the code does where the claim fails: on a page without the
    marker, [find] gives -1 and the scraper decodes from the character at
    index [len(marker) - 1]; when the decoder finds a JSON value there, the
    scraper returns it and raises nothing. *)
Theorem _get_webpack_data_without_marker
  (path webpack_id : string) (w : world) (r : response) (txt : string)
  (parsed : json) (stop : Z) :
  session_request w (page_request path) = Ok r ->
  res_text r = Ok txt ->
  str_find txt (webpack_marker webpack_id) = -1 ->
  raw_decode (strip (slice_from txt (len (webpack_marker webpack_id) - 1)))
  = Ok (parsed, stop) ->
  _get_webpack_data path webpack_id w
  = (Ok parsed, record_request (page_request path) w).
Proof.
  intros Hr Ht Hfind Hdec.
  rewrite (_get_webpack_data_answered path webpack_id w r txt Hr Ht), Hfind.
  replace (-1 + len (webpack_marker webpack_id))
    with (len (webpack_marker webpack_id) - 1) by lia.
  rewrite Hdec. reflexivity.
Qed.

(** *** What an operation leaves untouched *)

Section Keeps.

Context {B : Type} (proj : world -> B).
Hypothesis proj_log : forall entry w, proj (log_error entry w) = proj w.

Lemma keeps_ret {A} (a : A) : keeps proj (ret a).
Proof. intros w. reflexivity. Qed.

Lemma keeps_raise {A} (e : exn) : keeps proj (@raise A e).
Proof. intros w. reflexivity. Qed.

Lemma keeps_lift {A} (r : result A) : keeps proj (lift r).
Proof. intros w. reflexivity. Qed.

Lemma keeps_logger_error entry : keeps proj (logger_error entry).
Proof. intros w. apply proj_log. Qed.

Lemma keeps_bind {A C} (m : M A) (k : A -> M C) :
  keeps proj m -> (forall a, keeps proj (k a)) -> keeps proj (bind m k).
Proof.
  intros Hm Hk w. unfold bind. specialize (Hm w).
  destruct (m w) as [[a | e] w1]; cbn [snd] in *.
  - now rewrite Hk.
  - exact Hm.
Qed.

Lemma keeps_try_except {A} (m : M A) (handler : exn -> M A) :
  keeps proj m -> (forall e, keeps proj (handler e)) ->
  keeps proj (try_except m handler).
Proof.
  intros Hm Hh w. unfold try_except. specialize (Hm w).
  destruct (m w) as [[a | e] w1]; cbn [snd] in *.
  - exact Hm.
  - now rewrite Hh.
Qed.

Lemma keeps_handle_exception {R} (body : M (flow R)) :
  keeps proj body -> keeps proj (handle_exception body).
Proof.
  intros Hb. unfold handle_exception, galaxy_http_handle_exception.
  apply keeps_try_except; [| intros e; apply keeps_raise].
  apply keeps_try_except; [exact Hb |].
  intros e. apply keeps_bind; [apply keeps_logger_error |].
  intros _. apply keeps_ret.
Qed.

End Keeps.

Ltac keeps_step :=
  lazymatch goal with
  | |- keeps _ (bind _ _) => apply keeps_bind; [| intros ?]
  | |- keeps _ (try_except _ _) => apply keeps_try_except; [| intros ?]
  | |- keeps _ (handle_exception _) => apply keeps_handle_exception
  | |- keeps _ (logger_error _) => apply keeps_logger_error
  | |- keeps _ (ret _) => apply keeps_ret
  | |- keeps _ (raise _) => apply keeps_raise
  | |- keeps _ (lift _) => apply keeps_lift
  | |- keeps _ (match ?x with _ => _ end) => destruct x
  | |- forall _, _ => intros ?
  | |- _ = _ => reflexivity
  end.

Ltac keeps_all := repeat keeps_step.

Ltac unfold_client :=
  repeat progress unfold _is_session_valid, get_gamekeys, get_order_details, _get_trove_details,
    get_subscription_plan, get_subscriber_hub_data, get_montly_trove_data,
    get_choice_marketing_data, get_choice_content_data, get_montly_content_data,
    _get_webpack_data, get_subscription_history, sign_url_subproduct,
    sign_url_trove, sign_download, _reedem_download, res_status, res_json_m,
    res_text_m, res_read_m, raise_for_status,
    get_trove_details_step, get_subscription_products_with_gamekeys_step,
    get_previous_subscription_months_step;
  cbv zeta.

(** *** What the session's cookies keep *)

Section Maintains.

Variable Q : world -> Prop.
Hypothesis Q_log : forall entry w, Q w -> Q (log_error entry w).

Lemma maintains_ret {A} (a : A) : maintains Q (ret a).
Proof. intros w Hw. exact Hw. Qed.

Lemma maintains_raise {A} (e : exn) : maintains Q (@raise A e).
Proof. intros w Hw. exact Hw. Qed.

Lemma maintains_lift {A} (r : result A) : maintains Q (lift r).
Proof. intros w Hw. exact Hw. Qed.

Lemma maintains_logger_error entry : maintains Q (logger_error entry).
Proof. intros w Hw. apply Q_log, Hw. Qed.

Lemma maintains_bind {A C} (m : M A) (k : A -> M C) :
  maintains Q m -> (forall a, maintains Q (k a)) -> maintains Q (bind m k).
Proof.
  intros Hm Hk w Hw. unfold bind. specialize (Hm w Hw).
  destruct (m w) as [[a | e] w1]; cbn [snd] in *.
  - now apply Hk.
  - exact Hm.
Qed.

Lemma maintains_try_except {A} (m : M A) (handler : exn -> M A) :
  maintains Q m -> (forall e, maintains Q (handler e)) ->
  maintains Q (try_except m handler).
Proof.
  intros Hm Hh w Hw. unfold try_except. specialize (Hm w Hw).
  destruct (m w) as [[a | e] w1]; cbn [snd] in *.
  - exact Hm.
  - now apply Hh.
Qed.

Lemma maintains_handle_exception {R} (body : M (flow R)) :
  maintains Q body -> maintains Q (handle_exception body).
Proof.
  intros Hb. unfold handle_exception, galaxy_http_handle_exception.
  apply maintains_try_except; [| intros e; apply maintains_raise].
  apply maintains_try_except; [exact Hb |].
  intros e. apply maintains_bind; [apply maintains_logger_error |].
  intros _. apply maintains_ret.
Qed.

Lemma maintains_drain {S I} (step : S -> M (gen_step S I)) :
  (forall s, maintains Q (step s)) ->
  forall fuel s w, Q w -> Q (snd (drain step fuel s w)).
Proof.
  intros Hstep. induction fuel as [| fuel IH]; intros s w Hw; [exact Hw |].
  cbn [drain]. specialize (Hstep s w Hw).
  destruct (step s w) as [[[item s' | s' |] | e] w1]; cbn [snd] in *;
    try exact Hstep.
  - specialize (IH s' w1 Hstep).
    destruct (drain step fuel s' w1) as [[items e] w2]. exact IH.
  - now apply IH.
Qed.

End Maintains.

Section Jar.

Variable P : gmap string string -> Prop.
Hypothesis session_keeps_P : session_keeps P.

Lemma maintains_jar_session_request rq :
  maintains (fun w => P (cookie_jar w)) (session_request_m rq).
Proof. intros w Hw. exact (session_keeps_P w rq Hw). Qed.

Ltac maintains_step :=
  lazymatch goal with
  | |- maintains _ (bind _ _) => apply maintains_bind; [| intros ?]
  | |- maintains _ (try_except _ _) => apply maintains_try_except; [| intros ?]
  | |- maintains _ (handle_exception _) => apply maintains_handle_exception
  | |- maintains _ (logger_error _) => apply maintains_logger_error
  | |- maintains _ (session_request_m _) => apply maintains_jar_session_request
  | |- maintains _ (ret _) => apply maintains_ret
  | |- maintains _ (raise _) => apply maintains_raise
  | |- maintains _ (lift _) => apply maintains_lift
  | |- maintains _ (match ?x with _ => _ end) => destruct x
  | |- forall _ _, _ -> _ => intros ? ? H; exact H
  end.

Ltac maintains_jar := unfold_client; unfold _request; cbv zeta; repeat maintains_step.

Lemma maintains_jar_trove_step index :
  maintains (fun w => P (cookie_jar w)) (get_trove_details_step index).
Proof. maintains_jar. Qed.

Lemma maintains_jar_products_step s :
  maintains (fun w => P (cookie_jar w))
    (get_subscription_products_with_gamekeys_step s).
Proof. maintains_jar. Qed.

Lemma maintains_jar_months_step s :
  maintains (fun w => P (cookie_jar w)) (get_previous_subscription_months_step s).
Proof. maintains_jar. Qed.

Lemma maintains_jar_operations :
  maintains (fun w => P (cookie_jar w)) _is_session_valid
  /\ maintains (fun w => P (cookie_jar w)) get_gamekeys
  /\ (forall gamekey,
        maintains (fun w => P (cookie_jar w)) (get_order_details gamekey))
  /\ (forall path webpack_id,
        maintains (fun w => P (cookie_jar w)) (_get_webpack_data path webpack_id))
  /\ maintains (fun w => P (cookie_jar w)) get_subscription_plan
  /\ (forall download name,
        maintains (fun w => P (cookie_jar w)) (sign_url_subproduct download name))
  /\ (forall download name,
        maintains (fun w => P (cookie_jar w)) (sign_url_trove download name)).
Proof. repeat split; intros; maintains_jar. Qed.

End Jar.

(** X11. The client's own code never writes to the cookie jar outside
    authenticate: what the jar holds after the validity probe, a fetcher, a
    scraper, a sign operation or a generator, however long it is drained,
    is the doing of the session alone. Every property of the jar that no
    exchange with the session breaks (the auth cookie is still there with
    its value, say) holds after the operation when it held before; with
    responses that set no cookie the jar is as it was found. *)
Theorem jar_changes_only_through_session
  (P : gmap string string -> Prop) (w : world) :
  session_keeps P ->
  P (cookie_jar w) ->
  P (cookie_jar (snd (_is_session_valid w)))
  /\ P (cookie_jar (snd (get_gamekeys w)))
  /\ (forall gamekey, P (cookie_jar (snd (get_order_details gamekey w))))
  /\ (forall path webpack_id,
        P (cookie_jar (snd (_get_webpack_data path webpack_id w))))
  /\ P (cookie_jar (snd (get_subscription_plan w)))
  /\ (forall download name,
        P (cookie_jar (snd (sign_url_subproduct download name w))))
  /\ (forall download name,
        P (cookie_jar (snd (sign_url_trove download name w))))
  /\ (forall fuel index,
        P (cookie_jar (snd (drain get_trove_details_step fuel index w))))
  /\ (forall fuel s,
        P (cookie_jar
             (snd (drain get_subscription_products_with_gamekeys_step fuel s w))))
  /\ (forall fuel s,
        P (cookie_jar
             (snd (drain get_previous_subscription_months_step fuel s w)))).
Proof.
  intros HP Hw.
  destruct (maintains_jar_operations P HP)
    as (Hvalid & Hkeys & Horder & Hpage & Hplan & Hsub & Htrove).
  split; [exact (Hvalid w Hw) |].
  split; [exact (Hkeys w Hw) |].
  split; [intros gamekey; exact (Horder gamekey w Hw) |].
  split; [intros path webpack_id; exact (Hpage path webpack_id w Hw) |].
  split; [exact (Hplan w Hw) |].
  split; [intros download name; exact (Hsub download name w Hw) |].
  split; [intros download name; exact (Htrove download name w Hw) |].
  split; [| split]; intros fuel s.
  - apply (maintains_drain (fun w0 => P (cookie_jar w0)) _
             (maintains_jar_trove_step P HP) fuel s w Hw).
  - apply (maintains_drain (fun w0 => P (cookie_jar w0)) _
             (maintains_jar_products_step P HP) fuel s w Hw).
  - apply (maintains_drain (fun w0 => P (cookie_jar w0)) _
             (maintains_jar_months_step P HP) fuel s w Hw).
Qed.

(** *** Requests issued *)

Lemma sends_bind_quiet {A C} (m : M A) (k : A -> M C) (l : list request) :
  (forall w, sent (snd (m w)) = sent w ++ l) ->
  (forall a, keeps sent (k a)) ->
  forall w, sent (snd (bind m k w)) = sent w ++ l.
Proof.
  intros Hm Hk w. unfold bind. specialize (Hm w).
  destruct (m w) as [[a | e] w1]; cbn [snd] in *.
  - now rewrite Hk.
  - exact Hm.
Qed.

Ltac quiet := unfold_client; repeat keeps_step.

Lemma trove_step_sent index w :
  sent (snd (get_trove_details_step index w)) = sent w ++ [trove_request index].
Proof.
  unfold get_trove_details_step, _get_trove_details.
  apply sends_bind_quiet; [| intros chunk; quiet].
  apply sends_bind_quiet; [apply _request_sent | intros res; quiet].
Qed.

Lemma products_step_sent s w :
  sent (snd (get_subscription_products_with_gamekeys_step s w))
  = sent w ++ products_step_requests s.
Proof.
  destruct s as [cursor | res_json [| product rest]];
    cbn [get_subscription_products_with_gamekeys_step products_step_requests].
  - apply sends_bind_quiet; [apply _request_sent | intros res; quiet].
  - rewrite app_nil_r. revert w.
    change (keeps sent (let* cursor := lift (getitem res_json "cursor") in
                        ret (@Continue products_state json (ProductsFetch cursor)))).
    quiet.
  - now rewrite app_nil_r.
Qed.

Lemma months_step_sent s w :
  sent (snd (get_previous_subscription_months_step s w))
  = sent w ++ months_step_requests s.
Proof.
  destruct s as [from_product | prev_month [| month rest]];
    cbn [get_previous_subscription_months_step months_step_requests].
  - unfold get_subscription_history.
    apply sends_bind_quiet; [apply _request_sent | intros res; quiet].
  - rewrite app_nil_r. revert w.
    change (keeps sent
              (let* from_product := lift (getitem prev_month "machine_name") in
               ret (@Continue months_state ChoiceMonth (MonthsFetch from_product)))).
    quiet.
  - now rewrite app_nil_r.
Qed.

Lemma drain_requests_bounded {S I} (step : S -> M (gen_step S I)) :
  (forall s w, (length (sent (snd (step s w))) <= Datatypes.S (length (sent w)))%nat) ->
  forall fuel s w,
    (length (sent (snd (drain step fuel s w))) <= length (sent w) + fuel)%nat.
Proof.
  intros Hstep. induction fuel as [| fuel IH]; intros s w.
  - cbn [drain snd]. lia.
  - cbn [drain]. specialize (Hstep s w).
    destruct (step s w) as [[[item s' | s' |] | e] w1]; cbn [snd] in *; try lia.
    + specialize (IH s' w1).
      destruct (drain step fuel s' w1) as [[items e] w2]. cbn [snd] in *. lia.
    + specialize (IH s' w1). lia.
Qed.

(** X12. The generators are lazy and batch by page: a step that fetches
    issues exactly one request (for the chunk index, the cursor or the
    product it is at), a step that hands out an item of a page already
    fetched, or leaves that page, issues none; so draining for [fuel] steps
    never issues more than [fuel] requests. *)
Theorem generators_request_once_per_page (w : world) :
  (forall index,
     sent (snd (get_trove_details_step index w)) = sent w ++ [trove_request index])
  /\ (forall s,
        sent (snd (get_subscription_products_with_gamekeys_step s w))
        = sent w ++ match s with
                    | ProductsFetch cursor => [products_request cursor]
                    | ProductsLoop _ _ => []
                    end)
  /\ (forall s,
        sent (snd (get_previous_subscription_months_step s w))
        = sent w ++ match s with
                    | MonthsFetch from_product => [history_request from_product]
                    | MonthsLoop _ _ => []
                    end)
  /\ (forall fuel s,
        (length (sent (snd (drain get_subscription_products_with_gamekeys_step
                              fuel s w)))
         <= length (sent w) + fuel)%nat)
  /\ (forall fuel s,
        (length (sent (snd (drain get_previous_subscription_months_step fuel s w)))
         <= length (sent w) + fuel)%nat)
  /\ (forall fuel index,
        (length (sent (snd (drain get_trove_details_step fuel index w)))
         <= length (sent w) + fuel)%nat).
Proof.
  split; [intros; apply trove_step_sent |].
  split; [intros; apply products_step_sent |].
  split; [intros; apply months_step_sent |].
  split; [| split]; intros; apply drain_requests_bounded; intros s0 w0.
  - rewrite products_step_sent, length_app.
    destruct s0; cbn [products_step_requests length]; lia.
  - rewrite months_step_sent, length_app.
    destruct s0; cbn [months_step_requests length]; lia.
  - rewrite trove_step_sent, length_app. cbn [length]. lia.
Qed.

(** X1. [_request] never raises. It hands exactly one request to the
    session, for the authority followed by the path; it returns the
    session's response, or [None] when the session raised, and then the
    exception is in the error log and nowhere else. *)
Theorem _request_never_raises
  (method path : string) (params : list (string * string))
  (rfs ar : option bool) (w : world) :
  let rq := {| rq_method := method; rq_url := _AUTHORITY +:+ path;
               rq_params := params; rq_raise_for_status := rfs;
               rq_allow_redirects := ar |} in
  sent (snd (_request method path params rfs ar w)) = sent w ++ [rq]
  /\ match session_request w rq with
     | Ok r =>
         fst (_request method path params rfs ar w) = Ok (Some r)
         /\ error_log (snd (_request method path params rfs ar w)) = error_log w
     | Raise e =>
         fst (_request method path params rfs ar w) = Ok None
         /\ error_log (snd (_request method path params rfs ar w))
            = error_log w ++ [LogError e]
     end.
Proof.
  intros rq. subst rq.
  change {| rq_method := method; rq_url := _AUTHORITY +:+ path;
            rq_params := params; rq_raise_for_status := rfs;
            rq_allow_redirects := ar |}
    with (http_request method path params rfs ar).
  split; [apply _request_sent |].
  destruct (_request_cases method path params rfs ar w)
    as [(r & Hr & Hrun) | (e & Hr & Hrun)];
    cbv zeta in Hr, Hrun; rewrite Hr, Hrun; split; reflexivity.
Qed.

(** X13. The two sign operations go to the network in a fixed order and
    never redeem what was not signed: the sign request comes first, and the
    redeem request follows exactly when the sign call returned; when yarl
    finds no file name in the link, sign_url_subproduct raises without any
    request. *)
Theorem sign_url_redeems_only_after_signing
  (web download_machine_name machine_name product_machine_name : string)
  (w : world) :
  match _filename_from_web_link web with
  | Ok filename =>
      sent (snd (sign_url_subproduct {| dsi_web := Some web |}
                   download_machine_name w))
      = sent w ++ sign_request download_machine_name filename
          :: match fst (sign_download download_machine_name filename w) with
             | Ok _ => [redeem_request download_machine_name
                          [("download_url_file", filename)]]
             | Raise _ => []
             end
  | Raise e =>
      sign_url_subproduct {| dsi_web := Some web |} download_machine_name w
      = (Raise e, w)
  end
  /\ sent (snd (sign_url_trove
                  {| td_machine_name := machine_name; td_web := Some web |}
                  product_machine_name w))
     = sent w ++ sign_request machine_name web
         :: match fst (sign_download machine_name web w) with
            | Ok _ => [redeem_request machine_name
                         [("product", product_machine_name)]]
            | Raise _ => []
            end.
Proof.
  split.
  - unfold sign_url_subproduct. cbn [dsi_web].
    destruct (_filename_from_web_link web) as [filename | e].
    + unfold bind at 1. cbn [lift]. apply sign_then_redeem_sent.
    + reflexivity.
  - unfold sign_url_trove. cbn [td_web td_machine_name].
    apply sign_then_redeem_sent.
Qed.

(** *** Failures of the fetchers *)

Lemma fetch_json_masked method path params rfs ar w e :
  session_request w (http_request method path params rfs ar) = Raise e ->
  (let* res := _request method path params rfs ar in res_json_m res) w
  = (Raise (AttributeError "json"),
     log_error (LogError e)
       (record_request (http_request method path params rfs ar) w)).
Proof.
  intros H. unfold bind. rewrite (_request_swallows _ _ _ _ _ _ _ H).
  reflexivity.
Qed.

(** X2. A failure of the transport never reaches the caller of a fetcher
    as such: the exception is logged inside [_request], and the fetcher
    then fails on the attribute access on [None], with AttributeError for
    [json] (trove chunk, sign, order details, order list), for [text] (the
    scraper) or for [status] (the subscription generators). *)
Theorem fetchers_mask_transport_errors (w : world) (e : exn) :
  (forall rq, session_request w rq = Raise e) ->
  (forall index,
     _get_trove_details index w
     = (Raise (AttributeError "json"),
        log_error (LogError e) (record_request (trove_request index) w)))
  /\ (forall machine_name filename,
        sign_download machine_name filename w
        = (Raise (AttributeError "json"),
           log_error (LogError e)
             (record_request (sign_request machine_name filename) w)))
  /\ (forall gamekey,
        get_order_details gamekey w
        = (Raise (AttributeError "json"),
           log_error (LogError e) (record_request (order_request gamekey) w)))
  /\ get_gamekeys w
     = (Raise (AttributeError "json"),
        log_error (LogError e) (record_request order_list_request w))
  /\ (forall path webpack_id,
        _get_webpack_data path webpack_id w
        = (Raise (AttributeError "text"),
           log_error (LogError e) (record_request (page_request path) w)))
  /\ (forall cursor,
        get_subscription_products_with_gamekeys_step (ProductsFetch cursor) w
        = (Raise (AttributeError "status"),
           log_error (LogError e) (record_request (products_request cursor) w)))
  /\ (forall from_product,
        get_previous_subscription_months_step (MonthsFetch from_product) w
        = (Raise (AttributeError "status"),
           log_error (LogError e) (record_request (history_request from_product) w))).
Proof.
  intros H. repeat split; intros.
  - apply fetch_json_masked, H.
  - apply fetch_json_masked, H.
  - apply fetch_json_masked, H.
  - unfold get_gamekeys. unfold bind at 1.
    rewrite (_request_swallows _ _ _ _ _ _ _ (H _)). reflexivity.
  - unfold _get_webpack_data. unfold bind at 1.
    rewrite (_request_swallows _ _ _ _ _ _ _ (H _)). reflexivity.
  - cbn [get_subscription_products_with_gamekeys_step]. unfold bind at 1.
    rewrite (_request_swallows _ _ _ _ _ _ _ (H _)). reflexivity.
  - cbn [get_previous_subscription_months_step].
    unfold get_subscription_history, bind at 1.
    rewrite (_request_swallows _ _ _ _ _ _ _ (H _)). reflexivity.
Qed.

Lemma comprehension_getitem_all key orders keys :
  Forall2 (fun order k => getitem order key = Ok k) orders keys ->
  comprehension_getitem key orders = Ok keys.
Proof.
  induction 1 as [| order k orders keys Hk _ IH]; [reflexivity |].
  cbn [comprehension_getitem]. now rewrite Hk, IH.
Qed.

Lemma comprehension_getitem_first_failure key good bad rest e :
  Forall (fun order => exists k, getitem order key = Ok k) good ->
  getitem bad key = Raise e ->
  comprehension_getitem key (good ++ bad :: rest) = Raise e.
Proof.
  intros Hgood Hbad. induction Hgood as [| order good (k & Hk) _ IH].
  - cbn [app comprehension_getitem]. now rewrite Hbad.
  - cbn [app comprehension_getitem]. now rewrite Hk, IH.
Qed.

Lemma get_gamekeys_answered w r orders :
  session_request w order_list_request = Ok r ->
  res_json r = Ok (JArr orders) ->
  get_gamekeys w
  = (comprehension_getitem "gamekey" orders, record_request order_list_request w).
Proof.
  intros Hr Hj. unfold get_gamekeys. unfold bind at 1.
  change order_list_request
    with (http_request "get" _ORDER_LIST_URL [] None None) in Hr.
  rewrite (_request_answered _ _ _ _ _ _ _ Hr).
  unfold bind, res_json_m, lift. rewrite Hj. reflexivity.
Qed.

(** X3. When the order list is an array of orders that all have a
    [gamekey], get_gamekeys returns those gamekeys, one per order and in
    the order of the list, after one request. *)
Theorem get_gamekeys_projects_every_order
  (w : world) (r : response) (orders keys : list json) :
  session_request w order_list_request = Ok r ->
  res_json r = Ok (JArr orders) ->
  Forall2 (fun order k => getitem order "gamekey" = Ok k) orders keys ->
  get_gamekeys w = (Ok keys, record_request order_list_request w)
  /\ length keys = length orders.
Proof.
  intros Hr Hj Hall. split.
  - rewrite (get_gamekeys_answered w r orders Hr Hj).
    now rewrite (comprehension_getitem_all "gamekey" orders keys Hall).
  - symmetry. exact (Forall2_length _ _ _ Hall).
Qed.

(** X4. get_gamekeys is all or nothing: the first order on which the
    [gamekey] lookup raises (a missing key, an entry that is no object)
    makes the whole call raise that exception; the gamekeys before it are
    not returned. *)
Theorem get_gamekeys_fails_on_first_bad_order
  (w : world) (r : response) (good rest : list json) (bad : json) (e : exn) :
  session_request w order_list_request = Ok r ->
  res_json r = Ok (JArr (good ++ bad :: rest)) ->
  Forall (fun order => exists k, getitem order "gamekey" = Ok k) good ->
  getitem bad "gamekey" = Raise e ->
  get_gamekeys w = (Raise e, record_request order_list_request w).
Proof.
  intros Hr Hj Hgood Hbad.
  rewrite (get_gamekeys_answered w r _ Hr Hj).
  now rewrite (comprehension_getitem_first_failure "gamekey" good bad rest e).
Qed.

(** *** How the generators end *)

Lemma trove_step_ends index w r ending fuel :
  session_request w (trove_request index) = Ok r ->
  trove_end (res_json r) = Some ending ->
  drain get_trove_details_step (S fuel) index w
  = ([], ending, record_request (trove_request index) w).
Proof.
  intros Hr Hend. cbn [drain]. unfold get_trove_details_step, bind.
  rewrite (_get_trove_details_answered _ _ _ Hr).
  destruct (res_json r) as [[| | | | | [| item items] |] | e];
    cbn [trove_end] in Hend; try discriminate; injection Hend as <-;
    reflexivity.
Qed.

Lemma drain_chunks_then chunks : forall w index final ending extra,
  chunks_then w index chunks final ->
  trove_end final = Some ending ->
  exists w',
    drain get_trove_details_step (S (length chunks + extra)) index w
    = (map JArr chunks, ending, w')
    /\ sent w'
       = sent w ++ map trove_request (seqZ index (Z.of_nat (S (length chunks)))).
Proof.
  induction chunks as [| chunk rest IH]; intros w index final ending extra Hs Hend.
  - destruct Hs as (r & Hr & Hj). rewrite <- Hj in Hend.
    exists (record_request (trove_request index) w). split; [| reflexivity].
    apply (trove_step_ends index w r ending _ Hr Hend).
  - destruct Hs as (Hne & (r & Hr & Hj) & Hrest).
    destruct (IH _ _ final ending extra Hrest Hend) as (w' & Hd & Hsent).
    exists w'.
    pose proof (_get_trove_details_answered _ _ _ Hr) as Hg. rewrite Hj in Hg.
    split.
    + cbn [length Nat.add].
      erewrite drain_yield.
      2:{ rewrite (get_trove_details_step_yield index w chunk Hne)
            by (rewrite Hg; reflexivity).
          rewrite Hg. cbn [snd]. reflexivity. }
      rewrite Hd. reflexivity.
    + rewrite Hsent. cbn [sent record_request].
      rewrite <- app_assoc. f_equal.
      rewrite (seqZ_cons index) by lia. cbn [map app].
      replace (Z.succ index) with (index + 1) by lia.
      replace (Z.pred (Z.of_nat (S (length (chunk :: rest)))))
        with (Z.of_nat (S (length rest))) by (cbn [length]; lia).
      reflexivity.
Qed.

(** X5. Whatever ends get_trove_details, the chunks fetched before are
    delivered first: after the non-empty arrays [chunks], a body that is
    JSON but no array ends the generator with the unknown-backend-response
    error, and an exception of [res.json()] ends it with that exception. *)
Theorem get_trove_details_fails_after_yielding
  (from_chunk : option Z) (chunks : list (list json)) (final : result json)
  (ending : gen_end) (w : world) (extra : nat) :
  chunks_then w (default 0 from_chunk) chunks final ->
  trove_end final = Some ending ->
  exists w',
    drain get_trove_details_step (S (length chunks + extra))
      (get_trove_details from_chunk) w
    = (map JArr chunks, ending, w')
  /\ forall v e,
       (final = Ok v -> (forall items, v <> JArr items) ->
        ending = Failed (UnknownBackendResponse "Unrecognized trove chunks structure"))
       /\ (final = Raise e -> ending = Failed e).
Proof.
  intros Hs Hend.
  destruct (drain_chunks_then chunks w (default 0 from_chunk) final ending extra
              Hs Hend) as (w' & Hd & _).
  exists w'. split; [exact Hd |].
  intros v e. split.
  - intros -> Hv.
    destruct v as [| | | | | items |]; cbn [trove_end] in Hend;
      try (injection Hend as <-; reflexivity).
    now destruct (Hv items).
  - intros ->. cbn [trove_end] in Hend. now injection Hend as <-.
Qed.

(** X6. A products page without a [cursor] is not lost: its products are
    yielded, and only the attempt to go on raises the lookup's exception
    (KeyError for an object without the key). *)
Theorem get_subscription_products_fails_after_page
  (cursor body : json) (products : list json) (r : response) (e : exn)
  (w : world) (extra : nat) :
  session_request w (products_request cursor) = Ok r ->
  status r <> 404 ->
  res_json r = Ok body ->
  getitem body "products" = Ok (JArr products) ->
  getitem body "cursor" = Raise e ->
  drain get_subscription_products_with_gamekeys_step
    (S (length products + S extra)) (ProductsFetch cursor) w
  = (products, Failed e, after_page (products_request cursor) r w).
Proof.
  intros Hr Hst Hj Hp Hc.
  erewrite drain_continue by (eapply products_fetch_page; eassumption).
  rewrite drain_products_loop.
  erewrite drain_raise.
  2:{ cbn [get_subscription_products_with_gamekeys_step].
      unfold bind, lift. rewrite Hc. reflexivity. }
  cbn [fst snd]. now rewrite app_nil_r.
Qed.

(** X7. An error status other than 404 is not what ends a subscription
    generator: the response error of [raise_for_status] is logged and goes
    no further, and the generator goes on to [res.json()]. When that call
    raises, as it does on a response that aiohttp released on raising the
    status error, its exception ends the generator, and nothing of the
    page is yielded. *)
Theorem generators_fail_reading_error_pages
  (r : response) (e : exn) (w : world) (extra : nat) :
  400 <= status r ->
  status r <> 404 ->
  res_json r = Raise e ->
  (forall cursor,
      session_request w (products_request cursor) = Ok r ->
      drain get_subscription_products_with_gamekeys_step (S extra)
        (ProductsFetch cursor) w
      = ([], Failed e,
         log_error (LogError (ClientResponseError (status r)))
           (record_request (products_request cursor) w)))
  /\ (forall from_product,
        session_request w (history_request from_product) = Ok r ->
        drain get_previous_subscription_months_step (S extra)
          (MonthsFetch from_product) w
        = ([], Failed e,
           log_error (LogError (ClientResponseError (status r)))
             (record_request (history_request from_product) w))).
Proof.
  intros Hge Hst Hj. apply Z.leb_le in Hge.
  assert (E : (status r =? 404) = false) by now apply Z.eqb_neq.
  split.
  - intros cursor Hr. apply drain_raise.
    unfold get_subscription_products_with_gamekeys_step.
    unfold bind at 1. unfold products_request in Hr.
    rewrite (_request_answered _ _ _ _ _ _ _ Hr).
    unfold bind at 1. cbn [res_status ret]. rewrite E.
    unfold bind at 1. rewrite raise_for_status_swallowed, Hge.
    unfold bind, res_json_m, lift. rewrite Hj. reflexivity.
  - intros from_product Hr. apply drain_raise.
    unfold get_previous_subscription_months_step, get_subscription_history.
    unfold bind at 1. unfold history_request in Hr.
    rewrite (_request_answered _ _ _ _ _ _ _ Hr).
    unfold bind at 1. cbn [res_status ret]. rewrite E.
    unfold bind at 1. rewrite raise_for_status_swallowed, Hge.
    unfold bind, res_json_m, lift. rewrite Hj. reflexivity.
Qed.

(** X8. get_previous_subscription_months ends without an error on every
    falsy [previous_months], not only on the empty array: [null], [false],
    [0], the empty string and the empty object end it as well. *)
Theorem get_previous_subscription_months_stops_on_falsy
  (from_product body months : json) (r : response) (w : world) (extra : nat) :
  session_request w (history_request from_product) = Ok r ->
  status r <> 404 ->
  res_json r = Ok body ->
  getitem body "previous_months" = Ok months ->
  truthy months = false ->
  drain get_previous_subscription_months_step (S extra) (MonthsFetch from_product) w
  = ([], Exhausted, after_page (history_request from_product) r w).
Proof.
  intros Hr Hst Hj Hp Hfalsy. apply drain_stop.
  unfold get_previous_subscription_months_step, get_subscription_history.
  unfold bind at 1. unfold history_request in Hr.
  rewrite (_request_answered _ _ _ _ _ _ _ Hr).
  unfold bind at 1. cbn [res_status ret].
  destruct (status r =? 404) eqn:E; [apply Z.eqb_eq in E; contradiction |].
  unfold bind at 1. rewrite raise_for_status_swallowed.
  unfold bind, res_json_m, lift. rewrite Hj, Hp, Hfalsy. cbn [negb].
  unfold after_page, history_request.
  destruct (400 <=? status r); reflexivity.
Qed.

(** X9. When the last entry of a page of previous months has no usable
    [machine_name], every entry of the page is still yielded, and the
    generator then raises the lookup's exception instead of asking for
    more. *)
Theorem get_previous_subscription_months_fails_after_page
  (from_product body last_month : json) (months : list json) (r : response)
  (e : exn) (w : world) (extra : nat) :
  session_request w (history_request from_product) = Ok r ->
  status r <> 404 ->
  res_json r = Ok body ->
  getitem body "previous_months" = Ok (JArr months) ->
  last months = Some last_month ->
  getitem last_month "machine_name" = Raise e ->
  drain get_previous_subscription_months_step (length months + S extra)
    (MonthsFetch from_product) w
  = (map Build_ChoiceMonth months, Failed e,
     after_page (history_request from_product) r w).
Proof.
  intros Hr Hst Hj Hp Hl He.
  destruct months as [| month pending]; [discriminate |].
  cbn [length Nat.add].
  erewrite drain_yield
    by (rewrite (months_fetch_page from_product w r body (month :: pending));
        [reflexivity | assumption ..]).
  rewrite drain_months_loop.
  rewrite last_cons in Hl.
  assert (Hlast : default month (last pending) = last_month)
    by (destruct (last pending); simpl; congruence).
  rewrite Hlast.
  erewrite drain_raise.
  2:{ cbn [get_previous_subscription_months_step].
      unfold bind, lift. rewrite He. reflexivity. }
  cbn [fst snd map]. now rewrite app_nil_r.
Qed.

(** *** Against a backend that does not change *)

Section Stateless.

Hypothesis stateless : stateless_session.

Lemma same_ret {A} (a : A) : same_outcome (ret a).
Proof. intros w w'. reflexivity. Qed.

Lemma same_raise {A} (e : exn) : same_outcome (@raise A e).
Proof. intros w w'. reflexivity. Qed.

Lemma same_lift {A} (r : result A) : same_outcome (lift r).
Proof. intros w w'. reflexivity. Qed.

Lemma same_logger_error entry : same_outcome (logger_error entry).
Proof. intros w w'. reflexivity. Qed.

Lemma same_session_request rq : same_outcome (session_request_m rq).
Proof. intros w w'. unfold session_request_m. cbn [fst]. apply stateless. Qed.

Lemma same_bind {A C} (m : M A) (k : A -> M C) :
  same_outcome m -> (forall a, same_outcome (k a)) -> same_outcome (bind m k).
Proof.
  intros Hm Hk w w'. unfold bind. specialize (Hm w w').
  destruct (m w) as [[a | e] w1], (m w') as [[a' | e'] w1'];
    cbn [fst] in *; try discriminate.
  - injection Hm as <-. apply Hk.
  - now injection Hm as <-.
Qed.

Lemma same_try_except {A} (m : M A) (handler : exn -> M A) :
  same_outcome m -> (forall e, same_outcome (handler e)) ->
  same_outcome (try_except m handler).
Proof.
  intros Hm Hh w w'. unfold try_except. specialize (Hm w w').
  destruct (m w) as [[a | e] w1], (m w') as [[a' | e'] w1'];
    cbn [fst] in *; try discriminate.
  - exact Hm.
  - injection Hm as <-. apply Hh.
Qed.

Lemma same_handle_exception {R} (body : M (flow R)) :
  same_outcome body -> same_outcome (handle_exception body).
Proof.
  intros Hb. unfold handle_exception, galaxy_http_handle_exception.
  apply same_try_except; [| intros e; apply same_raise].
  apply same_try_except; [exact Hb |].
  intros e. apply same_bind; [apply same_logger_error |].
  intros _. apply same_ret.
Qed.

Lemma same_drain {S I} (step : S -> M (gen_step S I)) :
  (forall s, same_outcome (step s)) ->
  forall fuel s w w', fst (drain step fuel s w) = fst (drain step fuel s w').
Proof.
  intros Hstep. induction fuel as [| fuel IH]; intros s w w'; [reflexivity |].
  cbn [drain]. specialize (Hstep s w w').
  destruct (step s w) as [[[item s1 | s1 |] | e] w1],
           (step s w') as [[[item' s1' | s1' |] | e'] w1'];
    cbn [fst] in Hstep; try discriminate.
  - injection Hstep as <- <-. specialize (IH s1 w1 w1').
    destruct (drain step fuel s1 w1) as [[items e] w2],
             (drain step fuel s1 w1') as [[items' e'] w2'].
    cbn [fst] in *. now injection IH as <- <-.
  - injection Hstep as <-. apply IH.
  - reflexivity.
  - now injection Hstep as <-.
Qed.

Ltac same_step :=
  lazymatch goal with
  | |- same_outcome (bind _ _) => apply same_bind; [| intros ?]
  | |- same_outcome (try_except _ _) => apply same_try_except; [| intros ?]
  | |- same_outcome (handle_exception _) => apply same_handle_exception
  | |- same_outcome (session_request_m _) => apply same_session_request
  | |- same_outcome (logger_error _) => apply same_logger_error
  | |- same_outcome (ret _) => apply same_ret
  | |- same_outcome (raise _) => apply same_raise
  | |- same_outcome (lift _) => apply same_lift
  | |- same_outcome (match ?x with _ => _ end) => destruct x
  end.

Ltac same_all := unfold_client; unfold _request; cbv zeta; repeat same_step.

Lemma same_trove_step index : same_outcome (get_trove_details_step index).
Proof. same_all. Qed.

Lemma same_products_step s :
  same_outcome (get_subscription_products_with_gamekeys_step s).
Proof. same_all. Qed.

Lemma same_months_step s :
  same_outcome (get_previous_subscription_months_step s).
Proof. same_all. Qed.

End Stateless.

(** X10. Against a backend that answers a request the same way whenever
    it is asked, a paginated fetch can be repeated: drained from the same
    start, each of the three generators yields the same items and ends the
    same way, whatever was requested or logged before; and
    get_trove_details started one chunk later yields what is left after the
    first chunk. *)
Theorem generators_repeatable (w w' : world) :
  stateless_session ->
  (forall fuel index,
     fst (drain get_trove_details_step fuel index w)
     = fst (drain get_trove_details_step fuel index w'))
  /\ (forall fuel s,
        fst (drain get_subscription_products_with_gamekeys_step fuel s w)
        = fst (drain get_subscription_products_with_gamekeys_step fuel s w'))
  /\ (forall fuel s,
        fst (drain get_previous_subscription_months_step fuel s w)
        = fst (drain get_previous_subscription_months_step fuel s w'))
  /\ (forall fuel index chunk next,
        fst (get_trove_details_step index w) = Ok (Yield chunk next) ->
        next = index + 1
        /\ fst (fst (drain get_trove_details_step (S fuel) index w))
           = chunk :: fst (fst (drain get_trove_details_step fuel (index + 1) w'))).
Proof.
  intros Hs. split; [| split; [| split]].
  - intros. apply same_drain, same_trove_step, Hs.
  - intros. apply same_drain, same_products_step, Hs.
  - intros. apply same_drain, same_months_step, Hs.
  - intros fuel index chunk next Hy.
    destruct (get_trove_details_step index w) as [res w1] eqn:Hstep.
    cbn [fst] in Hy. subst res.
    assert (Hnext : next = index + 1).
    { unfold get_trove_details_step, bind in Hstep.
      destruct (_get_trove_details index w) as [[v | e] w2]; [| discriminate].
      destruct v as [| | | | | items |]; try discriminate.
      destruct (Nat.eqb (length items) 0); [discriminate |].
      now injection Hstep as _ <- _. }
    split; [exact Hnext |]. subst next.
    rewrite (drain_yield _ fuel index w chunk (index + 1) w1 Hstep). cbn [fst].
    f_equal.
    now rewrite (same_drain get_trove_details_step (same_trove_step Hs)
                   fuel (index + 1) w1 w').
Qed.

(** *** Redeeming, authenticating, probing *)

Lemma _reedem_download_expected_body name custom_data w r :
  session_request w (redeem_request name custom_data) = Ok r ->
  res_read r = Ok redeem_success ->
  _reedem_download name custom_data w
  = (Ok tt, record_request (redeem_request name custom_data) w).
Proof.
  intros Hr Hc. unfold _reedem_download, bind. unfold redeem_request in Hr.
  rewrite (_request_answered _ _ _ _ _ _ _ Hr).
  cbn [res_read_m lift]. rewrite Hc. reflexivity.
Qed.

(** X14. The redeem call returns normally exactly when the body it reads
    is, byte for byte, the marker [{'success': True}]; every other body,
    the JSON spelling of the same answer included, makes it raise the
    unknown-backend-response error. *)
Theorem _reedem_download_accepts_only_the_marker
  (name : string) (custom_data : list (string * string)) (w : world)
  (r : response) (content : string) :
  session_request w (redeem_request name custom_data) = Ok r ->
  res_read r = Ok content ->
  (fst (_reedem_download name custom_data w) = Ok tt
   <-> content = "{'success': True}")
  /\ (content <> "{'success': True}" ->
      fst (_reedem_download name custom_data w)
      = Raise (UnknownBackendResponse
                 "unexpected response while reedem trove download")).
Proof.
  intros Hr Hc.
  assert (Hbad : content <> redeem_success ->
                 fst (_reedem_download name custom_data w)
                 = Raise (UnknownBackendResponse
                            "unexpected response while reedem trove download")).
  { intros Hne.
    now rewrite (_reedem_download_unexpected_body name custom_data w r content). }
  split; [| exact Hbad].
  split.
  - intros Hok. destruct (String.eqb_spec content redeem_success) as [E | E];
      [exact E |].
    rewrite (Hbad E) in Hok. discriminate.
  - intros ->.
    now rewrite (_reedem_download_expected_body name custom_data w r).
Qed.

Lemma remove_char_removes c s : contains_char c (remove_char c s) = false.
Proof.
  induction s as [| d s IH]; [reflexivity |].
  cbn [remove_char]. destruct (Ascii.eqb d c) eqn:E; [exact IH |].
  cbn [contains_char]. now rewrite E, IH.
Qed.

Lemma remove_char_absent c s :
  contains_char c s = false -> remove_char c s = s.
Proof.
  induction s as [| d s IH]; [reflexivity |].
  cbn [contains_char remove_char]. intros H.
  apply orb_false_elim in H. destruct H as (Hd & Hs).
  now rewrite Hd, (IH Hs).
Qed.

(** X15. authenticate is local: it sends nothing and logs nothing. When
    the escape decoding raises, or the cookie name is one SimpleCookie
    refuses, it raises with the world, the cookie jar included, exactly as
    it was. *)
Theorem authenticate_is_local (c : auth_cookie) (w : world) :
  sent (snd (authenticate c w)) = sent w
  /\ error_log (snd (authenticate c w)) = error_log w
  /\ (forall e, unicode_escape (ac_value c) = Raise e ->
                authenticate c w = (Raise e, w))
  /\ (forall cookie_val,
        unicode_escape (ac_value c) = Ok cookie_val ->
        is_legal_key (ac_name c) = false ->
        authenticate c w = (Raise CookieError, w)).
Proof.
  unfold authenticate, bind, lift, update_cookies.
  destruct (unicode_escape (ac_value c)) as [cookie_val | e];
    [| repeat split; intros; congruence].
  destruct (is_legal_key (ac_name c)); cbn [ret raise snd fst].
  - repeat split; intros; congruence.
  - repeat split; intros; congruence.
Qed.

(** X16. For a cookie with a legal name that no interpreter reserves and
    a value that, decoded and without its double quotes, is printable
    ASCII, authenticate leaves the jar holding that value under the
    cookie's name; the other cookies are as before, and authenticating
    again with the same cookie changes nothing more, whether or not the
    user id could be decoded. *)
Theorem authenticate_installs_the_cookie
  (c : auth_cookie) (w : world) (cookie_val : string) :
  unicode_escape (ac_value c) = Ok cookie_val ->
  is_plain_cookie (ac_name c) (remove_char "034" cookie_val) = true ->
  let w' := snd (authenticate c w) in
  cookie_jar w' !! ac_name c = Some (remove_char "034" cookie_val)
  /\ contains_char "034" (remove_char "034" cookie_val) = false
  /\ (forall other, other <> ac_name c ->
                    cookie_jar w' !! other = cookie_jar w !! other)
  /\ snd (authenticate c w') = w'.
Proof.
  intros Hv Hplain w'. subst w'.
  assert (Hk : is_legal_key (ac_name c) = true).
  { unfold is_plain_cookie in Hplain.
    apply andb_true_iff in Hplain as [Hplain _].
    now apply andb_true_iff in Hplain as [Hk _]. }
  rewrite (authenticate_runs c w cookie_val Hv Hk). cbn [snd].
  split; [apply lookup_insert_eq |].
  split; [apply remove_char_removes |].
  split; [intros other Hne; cbn [with_cookie cookie_jar];
          now apply lookup_insert_ne |].
  rewrite (authenticate_runs c _ cookie_val Hv Hk). cbn [snd].
  unfold with_cookie. cbn [sent cookie_jar error_log].
  now rewrite insert_insert_eq.
Qed.

(** X17. Only the first segment of the token takes part in decoding the
    user id: whatever follows the first ["|"] (the timestamp and the
    signature of the cookie) is never read, let alone verified. *)
Theorem _decode_user_id_reads_first_segment (segment : string) :
  all_chars (fun c => negb (Ascii.eqb c "|")) segment = true ->
  forall rest rest',
    _decode_user_id (segment +:+ String "|" rest)
    = _decode_user_id (segment +:+ String "|" rest')
    /\ _decode_user_id (segment +:+ String "|" rest) = _decode_user_id segment.
Proof.
  intros Hseg rest rest'. unfold _decode_user_id.
  rewrite (first_segment_app "|" segment (String "|" rest) Hseg)
    by (right; eexists; reflexivity).
  rewrite (first_segment_app "|" segment (String "|" rest') Hseg)
    by (right; eexists; reflexivity).
  split; [reflexivity |].
  assert (Hnil : segment +:+ "" = segment).
  { clear. induction segment as [| c s IH]; [reflexivity |].
    now rewrite append_String, IH. }
  assert (E : first_segment "|" segment = segment).
  { rewrite <- Hnil at 1. apply first_segment_app; [exact Hseg | now left]. }
  now rewrite E.
Qed.

(** X18. The validity probe always answers: it sends the one order-list
    request and returns a boolean, never an exception; the answer is false
    exactly when the session raised the response error with status 401. *)
Theorem _is_session_valid_always_answers (w : world) :
  (exists valid, fst (_is_session_valid w) = Ok valid)
  /\ (fst (_is_session_valid w) = Ok false
      <-> session_request w order_list_request = Raise (ClientResponseError 401))
  /\ sent (snd (_is_session_valid w)) = sent w ++ [order_list_request].
Proof.
  rewrite _is_session_valid_cases.
  destruct (session_request w order_list_request) as [r | e].
  - split; [eexists; reflexivity |]. split; [split; discriminate | reflexivity].
  - destruct e as [st | | | | | | | | | | | | | | |];
      try (split; [eexists; reflexivity |];
           split; [split; discriminate | reflexivity]).
    destruct (st =? 401) eqn:E.
    + apply Z.eqb_eq in E. subst st.
      split; [eexists; reflexivity |]. split; [split; reflexivity | reflexivity].
    + apply Z.eqb_neq in E.
      split; [eexists; reflexivity |].
      split; [split; [discriminate | intros [= H]; contradiction] | reflexivity].
Qed.

(** *** The scrapers *)

Lemma prefix_app p : forall s,
  String.prefix p s = true -> exists post, s = p +:+ post.
Proof.
  induction p as [| a p IH]; intros s H.
  - exists s. reflexivity.
  - destruct s as [| b s]; cbn [String.prefix] in H; [destruct a; discriminate |].
    destruct (ascii_dec a b) as [<- | _]; [| discriminate].
    destruct (IH s H) as (post & ->). exists post. reflexivity.
Qed.

Lemma prefix_of_app p : forall post, String.prefix p (p +:+ post) = true.
Proof.
  induction p as [| a p IH]; intros post.
  - destruct post; reflexivity.
  - rewrite append_String. cbn [String.prefix].
    destruct (ascii_dec a a) as [_ | Hne]; [apply IH | contradiction].
Qed.

Lemma find_from_range sub : forall s i,
  0 <= i -> find_from sub s i = -1 \/ i <= find_from sub s i.
Proof.
  induction s as [| c s IH]; intros i Hi; cbn [find_from].
  - destruct (String.prefix sub ""); [right; lia | left; reflexivity].
  - destruct (String.prefix sub (String c s)); [right; lia |].
    destruct (IH (i + 1)) as [H | H]; [lia | now left | right; lia].
Qed.

Lemma find_from_found sub : forall s i,
  0 <= i ->
  find_from sub s i <> -1 ->
  exists pre post,
    s = pre +:+ sub +:+ post /\ len pre = find_from sub s i - i.
Proof.
  induction s as [| c s IH]; intros i Hi Hfound; cbn [find_from] in *.
  - destruct (String.prefix sub "") eqn:Hp; [| contradiction].
    destruct (prefix_app _ _ Hp) as (post & Hpost).
    exists "", post. split; [exact Hpost | unfold len; cbn; lia].
  - destruct (String.prefix sub (String c s)) eqn:Hp.
    + destruct (prefix_app _ _ Hp) as (post & Hpost).
      exists "", post. split; [exact Hpost | unfold len; cbn; lia].
    + destruct (IH (i + 1)) as (pre & post & -> & Hlen); [lia | exact Hfound |].
      exists (String c pre), post. split; [reflexivity |].
      unfold len in *. cbn [String.length]. lia.
Qed.

Lemma find_from_first sub pre post : forall i,
  0 <= i ->
  i <= find_from sub (pre +:+ sub +:+ post) i <= i + len pre.
Proof.
  induction pre as [| c pre IH]; intros i Hi.
  - change ("" +:+ sub +:+ post) with (sub +:+ post).
    assert (E : find_from sub (sub +:+ post) i = i).
    { destruct (sub +:+ post) eqn:Hs; cbn [find_from];
        rewrite <- Hs, prefix_of_app; reflexivity. }
    rewrite E. unfold len. cbn. lia.
  - rewrite append_String. cbn [find_from].
    destruct (String.prefix sub (String c (pre +:+ sub +:+ post))).
    + unfold len. cbn [String.length]. lia.
    + specialize (IH (i + 1)). unfold len in *. cbn [String.length]. lia.
Qed.

Lemma drop_chars_app pre : forall post,
  drop_chars (String.length pre) (pre +:+ post) = post.
Proof.
  induction pre as [| c pre IH]; intros post; [reflexivity |].
  rewrite append_String. cbn [String.length drop_chars]. apply IH.
Qed.

Lemma length_append s : forall t,
  String.length (s +:+ t) = (String.length s + String.length t)%nat.
Proof.
  induction s as [| c s IH]; intros t; [reflexivity |].
  rewrite append_String. cbn [String.length]. now rewrite IH.
Qed.

Lemma append_assoc s : forall t u, (s +:+ t) +:+ u = s +:+ t +:+ u.
Proof.
  induction s as [| c s IH]; intros t u; [reflexivity |].
  now rewrite !append_String, IH.
Qed.

Lemma slice_after pre sub post :
  slice_from (pre +:+ sub +:+ post) (len pre + len sub) = post.
Proof.
  unfold slice_from, len.
  assert (E : (Z.of_nat (String.length pre) + Z.of_nat (String.length sub) <? 0)
              = false) by (apply Z.ltb_ge; lia).
  rewrite E.
  replace (Z.to_nat (Z.of_nat (String.length pre) + Z.of_nat (String.length sub)))
    with (String.length (pre +:+ sub)) by (rewrite length_append; lia).
  rewrite <- append_assoc. apply drop_chars_app.
Qed.

(** X19. When the marker occurs in the page, the scraper hands the
    decoder the text that follows the first occurrence of the marker,
    stripped of surrounding white space: it returns the decoder's value
    whatever markup follows it, turns the decoder's JSONDecodeError into
    the unknown-backend-response error, and lets any other exception of
    the decoder through. *)
Theorem _get_webpack_data_decodes_after_first_marker
  (path webpack_id : string) (w : world) (r : response) (txt : string) :
  session_request w (page_request path) = Ok r ->
  res_text r = Ok txt ->
  str_find txt (webpack_marker webpack_id) <> -1 ->
  exists pre post,
    txt = pre +:+ webpack_marker webpack_id +:+ post
    /\ (forall pre' post',
          txt = pre' +:+ webpack_marker webpack_id +:+ post' ->
          (String.length pre <= String.length pre')%nat)
    /\ _get_webpack_data path webpack_id w
       = (match raw_decode (strip post) with
          | Ok (parsed, _) => Ok parsed
          | Raise JSONDecodeError =>
              Raise (UnknownBackendResponse "cannot parse webpack data")
          | Raise e => Raise e
          end,
          record_request (page_request path) w).
Proof.
  intros Hr Ht Hfound. unfold str_find in Hfound.
  destruct (find_from_found (webpack_marker webpack_id) txt 0 ltac:(lia) Hfound)
    as (pre & post & Htxt & Hlen).
  exists pre, post. split; [exact Htxt |]. split.
  - intros pre' post' Htxt'.
    pose proof (find_from_first (webpack_marker webpack_id) pre' post' 0
                  ltac:(lia)) as Hle.
    rewrite <- Htxt' in Hle. unfold len in *. lia.
  - rewrite (_get_webpack_data_answered path webpack_id w r txt Hr Ht).
    unfold str_find. rewrite Z.sub_0_r in Hlen. rewrite <- Hlen.
    rewrite Htxt at 1. rewrite slice_after. reflexivity.
Qed.

Lemma scraper_sent path webpack_id w :
  sent (snd (_get_webpack_data path webpack_id w))
  = sent w ++ [page_request path].
Proof.
  unfold _get_webpack_data.
  apply sends_bind_quiet; [apply _request_sent | intros res; quiet].
Qed.

Lemma get_subscription_plan_cases w :
  get_subscription_plan w
  = match get_subscriber_hub_data w with
    | (Ok data, w1) =>
        match getitem data "userSubscriptionPlan" with
        | Ok plan => (Ok (Some {| usp_data := plan |}), w1)
        | Raise (KeyError _) => (Ok None, w1)
        | Raise (UnknownBackendResponse _) => (Ok None, w1)
        | Raise e => (Raise e, w1)
        end
    | (Raise (KeyError _), w1) => (Ok None, w1)
    | (Raise (UnknownBackendResponse _), w1) => (Ok None, w1)
    | (Raise e, w1) => (Raise e, w1)
    end.
Proof.
  unfold get_subscription_plan, try_except. unfold bind at 1.
  destruct (get_subscriber_hub_data w) as [[data | e] w1].
  - unfold bind, lift.
    destruct (getitem data "userSubscriptionPlan") as [plan | e];
      [reflexivity | destruct e; reflexivity].
  - destruct e; reflexivity.
Qed.

(** X21. get_subscription_plan never raises the unknown-backend-response
    error nor a KeyError: when the subscriber-hub page cannot be scraped,
    or the scraped object has no [userSubscriptionPlan] entry, it returns
    [None]. Any other exception, the AttributeError that follows a
    transport failure among them, goes through. It sends the one request
    for the subscriber-hub page. *)
Theorem get_subscription_plan_none_on_unknown_response (w : world) :
  (forall msg, fst (get_subscription_plan w) <> Raise (UnknownBackendResponse msg))
  /\ (forall key, fst (get_subscription_plan w) <> Raise (KeyError key))
  /\ (forall msg,
        fst (get_subscriber_hub_data w) = Raise (UnknownBackendResponse msg) ->
        fst (get_subscription_plan w) = Ok None)
  /\ (forall data,
        fst (get_subscriber_hub_data w) = Ok data ->
        getitem data "userSubscriptionPlan" = Raise (KeyError "userSubscriptionPlan") ->
        fst (get_subscription_plan w) = Ok None)
  /\ (forall e,
        (forall rq, session_request w rq = Raise e) ->
        fst (get_subscription_plan w) = Raise (AttributeError "text"))
  /\ sent (snd (get_subscription_plan w))
     = sent w ++ [page_request "subscription/home"].
Proof.
  split; [| split; [| split; [| split; [| split]]]].
  - intros msg. rewrite get_subscription_plan_cases.
    destruct (get_subscriber_hub_data w) as [[data | e] w1];
      [destruct (getitem data "userSubscriptionPlan") as [plan | e] |];
      try destruct e; discriminate.
  - intros key. rewrite get_subscription_plan_cases.
    destruct (get_subscriber_hub_data w) as [[data | e] w1];
      [destruct (getitem data "userSubscriptionPlan") as [plan | e] |];
      try destruct e; discriminate.
  - intros msg H. rewrite get_subscription_plan_cases.
    destruct (get_subscriber_hub_data w) as [[data | e] w1]; cbn [fst] in H;
      [discriminate |].
    injection H as ->. reflexivity.
  - intros data H Hkey. rewrite get_subscription_plan_cases.
    destruct (get_subscriber_hub_data w) as [[data' | e] w1]; cbn [fst] in H;
      [| discriminate].
    injection H as ->. rewrite Hkey. reflexivity.
  - intros e H. rewrite get_subscription_plan_cases.
    unfold get_subscriber_hub_data, _get_webpack_data. cbv zeta.
    unfold bind at 1.
    rewrite (_request_swallows _ _ _ _ _ _ _ (H _)). reflexivity.
  - rewrite get_subscription_plan_cases.
    pose proof (scraper_sent _SUBSCRIPTION_HOME "webpack-subscriber-hub-data" w)
      as Hsent.
    change (_get_webpack_data _SUBSCRIPTION_HOME "webpack-subscriber-hub-data")
      with get_subscriber_hub_data in Hsent.
    destruct (get_subscriber_hub_data w) as [[data | e] w1]; cbn [snd] in Hsent;
      [destruct (getitem data "userSubscriptionPlan") as [plan | e] |];
      try destruct e; exact Hsent.
Qed.

(** X22. Each scraper reads one page: whatever comes of it, it has sent
    exactly one GET, with redirects not followed, for its own path; the
    two product-page scrapers take the caller's path segment after
    [subscription/] and after [monthly/p/]. *)
Theorem scrapers_request_their_page (w : world) :
  sent (snd (get_subscriber_hub_data w))
  = sent w ++ [page_request "subscription/home"]
  /\ sent (snd (get_montly_trove_data w))
     = sent w ++ [page_request "subscription/trove"]
  /\ sent (snd (get_choice_marketing_data w))
     = sent w ++ [page_request "subscription"]
  /\ (forall product_url_path,
        sent (snd (get_choice_content_data product_url_path w))
        = sent w ++ [page_request ("subscription/" +:+ product_url_path)])
  /\ (forall product_url_path,
        sent (snd (get_montly_content_data product_url_path w))
        = sent w ++ [page_request ("monthly/p/" +:+ product_url_path)])
  /\ (forall path,
        page_request path
        = {| rq_method := "GET"; rq_url := _AUTHORITY +:+ path; rq_params := [];
             rq_raise_for_status := None; rq_allow_redirects := Some false |}).
Proof.
  split; [apply scraper_sent |]. split; [apply scraper_sent |].
  split; [apply scraper_sent |]. split; [| split; [| reflexivity]].
  - intros p. unfold get_choice_content_data. cbv zeta.
    apply sends_bind_quiet; [intros w0; apply scraper_sent | intros; quiet].
  - intros p. unfold get_montly_content_data. cbv zeta.
    apply sends_bind_quiet; [intros w0; apply scraper_sent | intros; quiet].
Qed.

(** *** The parameters of the redeem request *)

Lemma dict_set_get_eq {V} k (v : V) d : params_get k (dict_set k v d) = Some v.
Proof.
  induction d as [| [k' v'] d IH]; cbn [dict_set params_get].
  - now rewrite String.eqb_refl.
  - destruct (String.eqb k' k) eqn:E; cbn [params_get]; rewrite E;
      [reflexivity | exact IH].
Qed.

Lemma dict_set_get_ne {V} k k0 (v : V) d :
  k0 <> k -> params_get k0 (dict_set k v d) = params_get k0 d.
Proof.
  intros Hne. induction d as [| [k' v'] d IH]; cbn [dict_set params_get].
  - destruct (String.eqb_spec k k0); [congruence | reflexivity].
  - destruct (String.eqb_spec k' k) as [-> | Hk]; cbn [params_get].
    + destruct (String.eqb_spec k k0); [congruence | reflexivity].
    + now rewrite IH.
Qed.

Lemma dict_set_keys {V} k (v : V) d :
  map fst (dict_set k v d) = map fst d
  \/ (~ In k (map fst d) /\ map fst (dict_set k v d) = map fst d ++ [k]).
Proof.
  induction d as [| [k' v'] d IH]; cbn [dict_set map fst app].
  - right. split; [intros [] | reflexivity].
  - destruct (String.eqb_spec k' k) as [-> | Hk]; cbn [map fst]; [now left |].
    destruct IH as [IH | (Hnot & IH)]; rewrite IH; [now left |].
    right. split; [| reflexivity]. intros [H | H]; [congruence | contradiction].
Qed.

Lemma dict_set_nodup {V} k (v : V) d :
  List.NoDup (map fst d) -> List.NoDup (map fst (dict_set k v d)).
Proof.
  intros Hd. destruct (dict_set_keys k v d) as [-> | (Hnot & ->)]; [exact Hd |].
  apply List.NoDup_app; [exact Hd | |].
  - constructor; [intros [] | constructor].
  - intros x Hx [<- | []]. contradiction.
Qed.

Lemma dict_update_nodup other : forall d : list (string * string),
  List.NoDup (map fst d) -> List.NoDup (map fst (dict_update d other)).
Proof.
  unfold dict_update.
  induction other as [| [k v] other IH]; intros d Hd; [exact Hd |].
  cbn [fold_left fst snd]. apply IH, dict_set_nodup, Hd.
Qed.

Lemma params_get_app {V} k (d d' : list (string * V)) :
  params_get k (d ++ d')
  = match params_get k d with
    | Some v => Some v
    | None => params_get k d'
    end.
Proof.
  induction d as [| [k' v'] d IH]; [reflexivity |].
  cbn [app params_get]. destruct (String.eqb k' k); [reflexivity | exact IH].
Qed.

Lemma dict_update_get other : forall (d : list (string * string)) k,
  params_get k (dict_update d other)
  = match params_get k (rev other) with
    | Some v => Some v
    | None => params_get k d
    end.
Proof.
  unfold dict_update.
  induction other as [| [k1 v1] other IH]; intros d k; [reflexivity |].
  cbn [fold_left fst snd rev]. rewrite IH, params_get_app.
  destruct (params_get k (rev other)); [reflexivity |].
  cbn [params_get]. destruct (String.eqb_spec k1 k) as [-> | Hne].
  - apply dict_set_get_eq.
  - apply dict_set_get_ne. congruence.
Qed.

(** X20. The redeem request carries each parameter name once. A name of
    the caller's extra fields has the value the caller gave it last, also
    when it is [download] or [download_page]; otherwise [download] is the
    machine name and [download_page] is [false]. *)
Theorem redeem_request_merges_custom_data
  (download_machine_name : string) (custom_data : list (string * string)) :
  List.NoDup (map fst (rq_params (redeem_request download_machine_name custom_data)))
  /\ (forall k,
        params_get k (rq_params (redeem_request download_machine_name custom_data))
        = match params_get k (rev custom_data) with
          | Some v => Some v
          | None =>
              if String.eqb "download" k then Some download_machine_name
              else if String.eqb "download_page" k then Some "false"
              else None
          end)
  /\ (forall w,
        sent (snd (_reedem_download download_machine_name custom_data w))
        = sent w ++ [redeem_request download_machine_name custom_data]).
Proof.
  cbn [redeem_request http_request rq_params]. split; [| split].
  - apply dict_update_nodup. cbn [map fst].
    repeat constructor; cbn [In].
    + intros [H | []]. discriminate H.
    + intros [].
  - intros k. rewrite dict_update_get. reflexivity.
  - intros w. apply _reedem_download_sent.
Qed.

End Client.

(** ** The error translation of galaxy.http is never reached *)

Lemma same_run_bind {A B} (m m' : M A) (k k' : A -> M B) :
  same_run m m' -> (forall a, same_run (k a) (k' a)) ->
  same_run (bind m k) (bind m' k').
Proof.
  intros Hm Hk w. unfold bind. rewrite (Hm w).
  destruct (m' w) as [[a | e] w1]; [apply Hk | reflexivity].
Qed.

Lemma same_run_try_except {A} (m m' : M A) (h h' : exn -> M A) :
  same_run m m' -> (forall e, same_run (h e) (h' e)) ->
  same_run (try_except m h) (try_except m' h').
Proof.
  intros Hm Hh w. unfold try_except. rewrite (Hm w).
  destruct (m' w) as [[a | e] w1]; [reflexivity | apply Hh].
Qed.

(** The inner [except Exception] leaves nothing for galaxy's context
    manager to translate. *)
Lemma same_run_handle_exception (g g' : exn -> exn) {R} (body body' : M (flow R)) :
  same_run body body' ->
  same_run (handle_exception g body) (handle_exception g' body').
Proof.
  intros Hb w.
  unfold handle_exception, galaxy_http_handle_exception, try_except, bind,
    logger_error, ret.
  rewrite (Hb w). destruct (body' w) as [[f | e] w1]; reflexivity.
Qed.

Lemma same_run_drain {S I} (step step' : S -> M (gen_step S I)) :
  (forall s, same_run (step s) (step' s)) ->
  forall fuel s w, drain step fuel s w = drain step' fuel s w.
Proof.
  intros Hstep fuel. induction fuel as [| fuel IH]; intros s w; [reflexivity |].
  cbn [drain]. rewrite (Hstep s w).
  destruct (step' s w) as [[[item s1 | s1 |] | e] w1];
    try reflexivity; rewrite IH; reflexivity.
Qed.

Ltac same_run_step :=
  first
    [ solve [intros ?; reflexivity]
    | apply same_run_handle_exception
    | apply same_run_bind; [| intros ?]
    | apply same_run_try_except; [| intros ?]
    | match goal with
      | |- same_run (match ?x with _ => _ end) _ => destruct x
      end ].

Ltac same_runs :=
  repeat progress unfold _request, _is_session_valid, get_gamekeys,
    get_order_details, _get_trove_details,
    get_subscription_plan, get_subscriber_hub_data, get_montly_trove_data,
    get_choice_marketing_data, get_choice_content_data, get_montly_content_data,
    _get_webpack_data, get_subscription_history, sign_url_subproduct,
    sign_url_trove, sign_download, _reedem_download,
    get_trove_details_step, get_subscription_products_with_gamekeys_step,
    get_previous_subscription_months_step;
  cbv zeta;
  repeat same_run_step.

Section Translation.

Variable session_request : world -> request -> result response.
Variable session_cookies : world -> request -> gmap string string.
Variables g g' : exn -> exn.
Variable py_repr : json -> string.
Variable yarl_parts : string -> result (list string).
Variable raw_decode : string -> result (json * Z).

(** X23. The translation of transport errors into the errors of the Galaxy
    API, which [galaxy.http.handle_exception] would do, never takes place:
    the client behaves the same whatever that translation is, in every
    world, because the module's own [except Exception] catches first. *)
Theorem galaxy_translation_is_never_applied (w : world) :
  (forall method path params rfs ar,
      _request session_request session_cookies g method path params rfs ar w
      = _request session_request session_cookies g' method path params rfs ar w)
  /\ _is_session_valid session_request session_cookies g w
     = _is_session_valid session_request session_cookies g' w
  /\ get_gamekeys session_request session_cookies g w
     = get_gamekeys session_request session_cookies g' w
  /\ (forall gamekey,
        get_order_details session_request session_cookies g py_repr gamekey w
        = get_order_details session_request session_cookies g' py_repr gamekey w)
  /\ (forall path webpack_id,
        _get_webpack_data session_request session_cookies g raw_decode
          path webpack_id w
        = _get_webpack_data session_request session_cookies g' raw_decode
            path webpack_id w)
  /\ get_subscription_plan session_request session_cookies g raw_decode w
     = get_subscription_plan session_request session_cookies g' raw_decode w
  /\ (forall download name,
        sign_url_subproduct session_request session_cookies g yarl_parts
          download name w
        = sign_url_subproduct session_request session_cookies g' yarl_parts
            download name w)
  /\ (forall download name,
        sign_url_trove session_request session_cookies g download name w
        = sign_url_trove session_request session_cookies g' download name w)
  /\ (forall fuel index,
        drain (get_trove_details_step session_request session_cookies g)
          fuel index w
        = drain (get_trove_details_step session_request session_cookies g')
            fuel index w)
  /\ (forall fuel s,
        drain (get_subscription_products_with_gamekeys_step
                 session_request session_cookies g py_repr) fuel s w
        = drain (get_subscription_products_with_gamekeys_step
                   session_request session_cookies g' py_repr) fuel s w)
  /\ (forall fuel s,
        drain (get_previous_subscription_months_step
                 session_request session_cookies g py_repr) fuel s w
        = drain (get_previous_subscription_months_step
                   session_request session_cookies g' py_repr) fuel s w).
Proof.
  assert (Hrun : forall A (m m' : M A), same_run m m' -> m w = m' w)
    by (intros A m m' H; apply H).
  repeat split; intros.
  1-8: apply Hrun; same_runs.
  all: apply same_run_drain; intros s0; same_runs.
Qed.

End Translation.

(** ** The claims at concrete inputs *)

Lemma get_trove_details_yields_whole_chunks_witness :
  (exists w',
     drain (get_trove_details_step (trove_session (JStr "a") (JStr "b"))
              no_set_cookie galaxy_http_errors)
       (S (length [[JStr "a"; JStr "b"]] + 0))
       (get_trove_details None) new_world
     = (map JArr [[JStr "a"; JStr "b"]], Exhausted, w')
     /\ sent w'
        = sent new_world ++ map trove_request
                              (seqZ (default 0 None)
                                 (Z.of_nat (S (length [[JStr "a"; JStr "b"]])))))
  /\ (forall index w0,
        fst (get_trove_details_step (trove_session (JStr "a") (JStr "b"))
               no_set_cookie galaxy_http_errors index w0) = Ok Stop
        <-> fst (_get_trove_details (trove_session (JStr "a") (JStr "b"))
                   no_set_cookie galaxy_http_errors index w0) = Ok (JArr [])).
Proof.
  apply (get_trove_details_yields_whole_chunks
           (trove_session (JStr "a") (JStr "b")) no_set_cookie galaxy_http_errors
           None [[JStr "a"; JStr "b"]] new_world 0).
  simpl. split; [discriminate |].
  split; eexists; split; reflexivity.
Defined.

(** C1 as stated fails: with chunk 0 = [[a, b]] and chunk 1 = [[]] the
    generator yields one item, the array, and not the two items [a], [b]. *)
Lemma get_trove_details_yields_one_array :
  fst (fst (drain (get_trove_details_step (trove_session (JStr "a") (JStr "b"))
                     no_set_cookie galaxy_http_errors)
              5 (get_trove_details None) new_world))
  = [JArr [JStr "a"; JStr "b"]]
  /\ fst (fst (drain (get_trove_details_step (trove_session (JStr "a") (JStr "b"))
                        no_set_cookie galaxy_http_errors)
                 5 (get_trove_details None) new_world))
     <> [JStr "a"; JStr "b"].
Proof.
  split; [vm_compute; reflexivity | vm_compute; discriminate].
Qed.

Lemma get_subscription_products_follows_cursor_witness :
  (exists w',
     drain (get_subscription_products_with_gamekeys_step
              (products_session (JStr "a") (JStr "b") (JStr "c"))
              no_set_cookie galaxy_http_errors (fun _ => ""))
       (products_fuel [([JStr "a"; JStr "b"], JStr "x"); ([JStr "c"], JStr "y")] + 0)
       get_subscription_products_with_gamekeys new_world
     = (concat (map fst [([JStr "a"; JStr "b"], JStr "x"); ([JStr "c"], JStr "y")]),
        Exhausted, w')
     /\ sent w'
        = sent new_world
          ++ map (products_request (fun _ => ""))
               (JStr "" :: map snd [([JStr "a"; JStr "b"], JStr "x");
                                    ([JStr "c"], JStr "y")]))
  /\ (forall cursor : string,
        products_request (fun _ => "") (JStr cursor)
        = {| rq_method := "GET";
             rq_url := _AUTHORITY +:+ _SUBSCRIPTION_PRODUCTS +:+ "/" +:+ cursor;
             rq_params := [];
             rq_raise_for_status := Some false;
             rq_allow_redirects := None |}).
Proof.
  apply (get_subscription_products_follows_cursor
           (products_session (JStr "a") (JStr "b") (JStr "c"))
           no_set_cookie galaxy_http_errors (fun _ => "")
           [([JStr "a"; JStr "b"], JStr "x"); ([JStr "c"], JStr "y")]
           new_world 0).
  simpl.
  eexists; eexists; repeat (split; [reflexivity || discriminate |]).
  simpl.
  eexists; eexists; repeat (split; [reflexivity || discriminate |]).
  simpl.
  eexists; split; reflexivity.
Defined.

Lemma get_previous_subscription_months_follows_last_entry_witness :
  (exists w',
     drain (get_previous_subscription_months_step months_session
              no_set_cookie galaxy_http_errors (fun _ => ""))
       (months_fuel
          [([JObj [("machine_name", JStr "january_2020_choice")];
             JObj [("machine_name", JStr "december_2019_choice")]],
            JStr "december_2019_choice")] + 0)
       (get_previous_subscription_months "february_2020_choice") new_world
     = (map Build_ChoiceMonth
          (concat (map fst
             [([JObj [("machine_name", JStr "january_2020_choice")];
                JObj [("machine_name", JStr "december_2019_choice")]],
               JStr "december_2019_choice")])),
        Exhausted, w')
     /\ sent w'
        = sent new_world
          ++ map (history_request (fun _ => ""))
               (JStr "february_2020_choice"
                :: map snd
                     [([JObj [("machine_name", JStr "january_2020_choice")];
                        JObj [("machine_name", JStr "december_2019_choice")]],
                       JStr "december_2019_choice")]))
  /\ (forall from w0 r,
        months_session w0 (history_request (fun _ => "") from) = Ok r ->
        (status r = 404 ->
         fst (get_previous_subscription_months_step months_session
                no_set_cookie galaxy_http_errors (fun _ => "") (MonthsFetch from)
                    w0) = Ok Stop)
        /\ (forall body months,
              status r <> 404 ->
              res_json r = Ok body ->
              getitem body "previous_months" = Ok (JArr months) ->
              (fst (get_previous_subscription_months_step months_session
                      no_set_cookie galaxy_http_errors (fun _ => "") (MonthsFetch
                          from) w0)
               = Ok Stop
               <-> months = [])))
  /\ (forall name : string,
        history_request (fun _ => "") (JStr name)
        = {| rq_method := "GET";
             rq_url := _AUTHORITY
                       +:+ "api/v1/subscriptions/humble_monthly/history?from_product="
                       +:+ name;
             rq_params := [];
             rq_raise_for_status := Some false;
             rq_allow_redirects := None |}).
Proof.
  apply (get_previous_subscription_months_follows_last_entry
           months_session no_set_cookie galaxy_http_errors (fun _ => "")
           "february_2020_choice"
           [([JObj [("machine_name", JStr "january_2020_choice")];
              JObj [("machine_name", JStr "december_2019_choice")]],
             JStr "december_2019_choice")]
           new_world 0).
  simpl.
  eexists; eexists; eexists; repeat (split; [reflexivity || discriminate |]).
  simpl.
  eexists; split; [reflexivity |].
  right. eexists; split; reflexivity.
Defined.

Example url_parts_lite_examples :
  url_parts_lite "https://dl.humble.com/game/setup_1.0.exe?key=abc" = Ok ["/";
      "game"; "setup_1.0.exe"]
  /\ url_parts_lite "" = Ok [""]
  /\ url_parts_lite "a/b" = Ok ["a"; "b"]
  /\ url_parts_lite "https://dl.humble.com" = Ok ["/"].
Proof. repeat split; reflexivity. Qed.

(** C3 as stated fails for an empty web link: the check lets the empty
    string through, and both operations go to the network with it. *)
Lemma sign_url_accepts_empty_web_link :
  sign_url_subproduct download_session no_set_cookie galaxy_http_errors
      url_parts_lite
    {| dsi_web := Some "" |} "game_pc" new_world
  = (Ok (JObj [("signed_url", JStr "https://dl.humble.com/signed")]),
     {| sent := [sign_request "game_pc" "";
                 redeem_request "game_pc" [("download_url_file", "")]];
        cookie_jar := ∅;
        error_log := [LogErrorIgnored
                        (UnknownBackendResponse
                           "unexpected response while reedem trove download")] |})
  /\ sign_url_trove download_session no_set_cookie galaxy_http_errors
       {| td_machine_name := "game_trove"; td_web := Some "" |} "trove" new_world
     = (Ok (JObj [("signed_url", JStr "https://dl.humble.com/signed")]),
        {| sent := [sign_request "game_trove" "";
                    redeem_request "game_trove" [("product", "trove")]];
           cookie_jar := ∅;
           error_log := [LogErrorIgnored
                           (UnknownBackendResponse
                              "unexpected response while reedem trove download")]
                                  |}).
Proof. split; vm_compute; reflexivity. Qed.

Lemma sign_url_suppresses_redeem_failure_witness :
  fst (sign_url_subproduct download_session no_set_cookie galaxy_http_errors
      url_parts_lite
         {| dsi_web := Some "https://dl.humble.com/game/setup.exe?key=1" |}
         "game_pc" new_world)
  = Ok (JObj [("signed_url", JStr "https://dl.humble.com/signed")])
  /\ fst (sign_url_trove download_session no_set_cookie galaxy_http_errors
            {| td_machine_name := "game_trove";
               td_web := Some "https://dl.humble.com/game/setup.exe?key=1" |}
            "trove" new_world)
     = Ok (JObj [("signed_url", JStr "https://dl.humble.com/signed")])
  /\ fst (_reedem_download download_session no_set_cookie galaxy_http_errors
      "game_pc"
            [("download_url_file", "setup.exe")]
            (record_request no_set_cookie (sign_request "game_pc" "setup.exe")
                new_world))
     = Raise (UnknownBackendResponse
                "unexpected response while reedem trove download").
Proof.
  destruct (sign_url_suppresses_redeem_failure download_session no_set_cookie
              galaxy_http_errors url_parts_lite) as (Hsub & Htrove & Hredeem).
  split; [| split].
  - apply (Hsub "https://dl.humble.com/game/setup.exe?key=1" "setup.exe"
             "game_pc" new_world
             (record_request no_set_cookie (sign_request "game_pc" "setup.exe")
                new_world)
             (JObj [("signed_url", JStr "https://dl.humble.com/signed")]));
      vm_compute; reflexivity.
  - apply (Htrove "https://dl.humble.com/game/setup.exe?key=1" "game_trove"
             "trove" new_world
             (record_request no_set_cookie
                (sign_request "game_trove"
                   "https://dl.humble.com/game/setup.exe?key=1")
                new_world)
             (JObj [("signed_url", JStr "https://dl.humble.com/signed")]));
      vm_compute; reflexivity.
  - eapply Hredeem; [vm_compute; reflexivity | reflexivity | discriminate].
Defined.



Lemma authenticate_failure_keeps_cookie_witness :
  is_authenticated new_world = false
  /\ exists w',
       authenticate json_loads_lite no_escapes
         {| ac_name := "_simpleauth_sess"; ac_value := "garbage" |} new_world
       = (Raise JSONDecodeError, w')
       /\ cookie_jar w' = <["_simpleauth_sess" := remove_char "034" "garbage"]>
                            (cookie_jar new_world)
       /\ is_authenticated w' = true.
Proof.
  split; [reflexivity |].
  apply (authenticate_failure_keeps_cookie json_loads_lite no_escapes
           {| ac_name := "_simpleauth_sess"; ac_value := "garbage" |}
           new_world "garbage" JSONDecodeError);
    vm_compute; reflexivity.
Defined.

Lemma _is_session_valid_turns_errors_into_true_witness :
  _is_session_valid (failing_session 500) no_set_cookie galaxy_http_errors new_world
  = (Ok true,
     log_error (LogError (ClientResponseError 500))
       (record_request no_set_cookie order_list_request new_world)).
Proof.
  apply (_is_session_valid_turns_errors_into_true (failing_session 500)
           no_set_cookie galaxy_http_errors new_world (ClientResponseError 500)).
  - reflexivity.
  - discriminate.
Defined.

Lemma _get_webpack_data_without_marker_witness :
  str_find page_without_marker (webpack_marker "webpack-x") = -1
  /\ _get_webpack_data (page_session page_without_marker) no_set_cookie
      galaxy_http_errors
       raw_decode_lite "subscription/home" "webpack-x" new_world
     = (Ok (JObj [("a", JNum 1)]),
        record_request no_set_cookie (page_request "subscription/home") new_world).
Proof.
  split; [vm_compute; reflexivity |].
  apply (_get_webpack_data_without_marker (page_session page_without_marker)
           no_set_cookie galaxy_http_errors raw_decode_lite "subscription/home"
               "webpack-x"
           new_world
           {| status := 200; res_json := Raise JSONDecodeError;
              res_text := Ok page_without_marker;
              res_read := Ok page_without_marker |}
           page_without_marker (JObj [("a", JNum 1)]) 7);
    vm_compute; reflexivity.
Defined.

(** With the marker in the page, the scraper returns the JSON value that
    follows it and drops the rest of the markup; with neither marker nor
    JSON at the 47th character, it raises the unknown-backend-response
    error. *)
Example _get_webpack_data_examples :
  fst (_get_webpack_data (page_session page_with_marker) no_set_cookie
      galaxy_http_errors
         raw_decode_lite "subscription/home" "webpack-x" new_world)
  = Ok (JObj [("a", JNum 1)])
  /\ fst (_get_webpack_data (page_session "<html><body>Please log in</body></html>")
            no_set_cookie galaxy_http_errors raw_decode_lite "subscription/home"
                "webpack-x"
            new_world)
     = Raise (UnknownBackendResponse "cannot parse webpack data").
Proof. split; vm_compute; reflexivity. Qed.

(** The same swallowing on the fetchers: when the session raises,
    [_request] returns [None], and the caller fails on the attribute access
    that follows. *)
Example get_trove_details_offline :
  drain (get_trove_details_step offline_session no_set_cookie galaxy_http_errors) 3
    (get_trove_details None) new_world
  = ([], Failed (AttributeError "json"),
     log_error (LogError ClientConnectionError)
       (record_request no_set_cookie (trove_request 0) new_world)).
Proof. vm_compute. reflexivity. Qed.


(** ** The further properties at concrete inputs *)

Lemma fetchers_mask_transport_errors_witness :
  get_gamekeys offline_session no_set_cookie galaxy_http_errors new_world
  = (Raise (AttributeError "json"),
     log_error (LogError ClientConnectionError)
       (record_request no_set_cookie order_list_request new_world))
  /\ _get_webpack_data offline_session no_set_cookie galaxy_http_errors
      raw_decode_lite
       "subscription/home" "webpack-x" new_world
     = (Raise (AttributeError "text"),
        log_error (LogError ClientConnectionError)
          (record_request no_set_cookie (page_request "subscription/home")
              new_world)).
Proof.
  unshelve epose proof
    (fetchers_mask_transport_errors offline_session no_set_cookie galaxy_http_errors
       (fun _ => "") raw_decode_lite new_world ClientConnectionError _) as H;
    [intros rq; reflexivity |].
  destruct H as (_ & _ & _ & Hkeys & Hpage & _).
  split; [exact Hkeys | apply Hpage].
Defined.

Lemma get_gamekeys_projects_every_order_witness :
  get_gamekeys
    (scripted_session
       [Ok (json_response 200
              (JArr [JObj [("gamekey", JStr "k1")];
                     JObj [("product", JNull); ("gamekey", JStr "k2")]]))])
    no_set_cookie galaxy_http_errors new_world
  = (Ok [JStr "k1"; JStr "k2"], record_request no_set_cookie order_list_request
      new_world).
Proof.
  refine (proj1 (get_gamekeys_projects_every_order _ no_set_cookie
      galaxy_http_errors new_world
                   (json_response 200
                      (JArr [JObj [("gamekey", JStr "k1")];
                             JObj [("product", JNull); ("gamekey", JStr "k2")]]))
                   [JObj [("gamekey", JStr "k1")];
                    JObj [("product", JNull); ("gamekey", JStr "k2")]]
                   [JStr "k1"; JStr "k2"] _ _ _)).
  - reflexivity.
  - reflexivity.
  - repeat constructor.
Defined.

Lemma get_gamekeys_fails_on_first_bad_order_witness :
  get_gamekeys
    (scripted_session
       [Ok (json_response 200
              (JArr [JObj [("gamekey", JStr "k1")]; JObj [];
                     JObj [("gamekey", JStr "k3")]]))])
    no_set_cookie galaxy_http_errors new_world
  = (Raise (KeyError "gamekey"), record_request no_set_cookie order_list_request
      new_world).
Proof.
  apply (get_gamekeys_fails_on_first_bad_order _ no_set_cookie galaxy_http_errors
      new_world
           (json_response 200
              (JArr [JObj [("gamekey", JStr "k1")]; JObj [];
                     JObj [("gamekey", JStr "k3")]]))
           [JObj [("gamekey", JStr "k1")]] [JObj [("gamekey", JStr "k3")]]
           (JObj []) (KeyError "gamekey")).
  - reflexivity.
  - reflexivity.
  - repeat constructor. exists (JStr "k1"). reflexivity.
  - reflexivity.
Defined.

Lemma get_trove_details_fails_after_yielding_witness :
  exists w',
    drain (get_trove_details_step
             (scripted_session
                [Ok (json_response 200 (JArr [JStr "a"]));
                 Ok (json_response 200 (JObj [("error", JStr "gone")]))])
             no_set_cookie galaxy_http_errors)
      (S (length [[JStr "a"]] + 0)) (get_trove_details None) new_world
    = ([JArr [JStr "a"]],
       Failed (UnknownBackendResponse "Unrecognized trove chunks structure"), w').
Proof.
  unshelve epose proof
    (get_trove_details_fails_after_yielding
       (scripted_session
          [Ok (json_response 200 (JArr [JStr "a"]));
           Ok (json_response 200 (JObj [("error", JStr "gone")]))])
       no_set_cookie galaxy_http_errors None [[JStr "a"]]
       (Ok (JObj [("error", JStr "gone")]))
       (Failed (UnknownBackendResponse "Unrecognized trove chunks structure"))
       new_world 0 _ _) as H.
  - simpl. split; [discriminate |].
    split; eexists; split; reflexivity.
  - reflexivity.
  - destruct H as (w' & Hrun & _). exists w'. exact Hrun.
Defined.

Lemma get_subscription_products_fails_after_page_witness :
  drain (get_subscription_products_with_gamekeys_step
           (scripted_session
              [Ok (json_response 200 (JObj [("products", JArr [JStr "a"])]))])
           no_set_cookie galaxy_http_errors (fun _ => ""))
    (S (length [JStr "a"] + 1)) (ProductsFetch (JStr "")) new_world
  = ([JStr "a"], Failed (KeyError "cursor"),
     record_request no_set_cookie (products_request (fun _ => "") (JStr ""))
         new_world).
Proof.
  apply (get_subscription_products_fails_after_page _ no_set_cookie
      galaxy_http_errors
           (fun _ => "") (JStr "") (JObj [("products", JArr [JStr "a"])])
           [JStr "a"]
           (json_response 200 (JObj [("products", JArr [JStr "a"])]))
           (KeyError "cursor") new_world 0).
  - reflexivity.
  - discriminate.
  - reflexivity.
  - reflexivity.
  - reflexivity.
Defined.

Lemma generators_fail_reading_error_pages_witness :
  drain (get_subscription_products_with_gamekeys_step
           (scripted_session [Ok (released_response 503)])
           no_set_cookie galaxy_http_errors (fun _ => ""))
    1 (ProductsFetch (JStr "")) new_world
  = ([], Failed ClientConnectionError,
     log_error (LogError (ClientResponseError 503))
       (record_request no_set_cookie (products_request (fun _ => "") (JStr ""))
          new_world)).
Proof.
  unshelve epose proof
    (generators_fail_reading_error_pages
       (scripted_session [Ok (released_response 503)])
       no_set_cookie galaxy_http_errors (fun _ => "")
       (released_response 503) ClientConnectionError new_world 0 _ _ _) as H.
  - simpl. lia.
  - discriminate.
  - reflexivity.
  - apply (proj1 H (JStr "")). reflexivity.
Defined.

Lemma get_previous_subscription_months_stops_on_falsy_witness :
  drain (get_previous_subscription_months_step
           (scripted_session
              [Ok (json_response 200 (JObj [("previous_months", JNull)]))])
           no_set_cookie galaxy_http_errors (fun _ => ""))
    1 (MonthsFetch (JStr "february_2020_choice")) new_world
  = ([], Exhausted,
     record_request no_set_cookie (history_request (fun _ => "") (JStr
         "february_2020_choice"))
       new_world).
Proof.
  apply (get_previous_subscription_months_stops_on_falsy _ no_set_cookie
      galaxy_http_errors
           (fun _ => "") (JStr "february_2020_choice")
           (JObj [("previous_months", JNull)]) JNull
           (json_response 200 (JObj [("previous_months", JNull)]))
           new_world 0).
  - reflexivity.
  - discriminate.
  - reflexivity.
  - reflexivity.
  - reflexivity.
Defined.

Lemma get_previous_subscription_months_fails_after_page_witness :
  drain (get_previous_subscription_months_step
           (scripted_session
              [Ok (json_response 200
                     (JObj [("previous_months",
                             JArr [JObj [("machine_name", JStr
                                 "january_2020_choice")];
                                   JObj [("title", JStr "December 2019")]])]))])
           no_set_cookie galaxy_http_errors (fun _ => ""))
    (2 + 1) (MonthsFetch (JStr "february_2020_choice")) new_world
  = ([Build_ChoiceMonth (JObj [("machine_name", JStr "january_2020_choice")]);
      Build_ChoiceMonth (JObj [("title", JStr "December 2019")])],
     Failed (KeyError "machine_name"),
     record_request no_set_cookie (history_request (fun _ => "") (JStr
         "february_2020_choice"))
       new_world).
Proof.
  apply (get_previous_subscription_months_fails_after_page _ no_set_cookie
      galaxy_http_errors
           (fun _ => "") (JStr "february_2020_choice")
           (JObj [("previous_months",
                   JArr [JObj [("machine_name", JStr "january_2020_choice")];
                         JObj [("title", JStr "December 2019")]])])
           (JObj [("title", JStr "December 2019")])
           [JObj [("machine_name", JStr "january_2020_choice")];
            JObj [("title", JStr "December 2019")]]
           (json_response 200
              (JObj [("previous_months",
                      JArr [JObj [("machine_name", JStr "january_2020_choice")];
                            JObj [("title", JStr "December 2019")]])]))
           (KeyError "machine_name") new_world 0).
  - reflexivity.
  - discriminate.
  - reflexivity.
  - reflexivity.
  - reflexivity.
  - reflexivity.
Defined.

Lemma generators_repeatable_witness :
  fst (drain (get_trove_details_step (trove_session (JStr "a") (JStr "b"))
                no_set_cookie galaxy_http_errors) 5 0 new_world)
  = fst (drain (get_trove_details_step (trove_session (JStr "a") (JStr "b"))
                  no_set_cookie galaxy_http_errors) 5 0
           (record_request no_set_cookie order_list_request new_world)).
Proof.
  unshelve epose proof
    (generators_repeatable (trove_session (JStr "a") (JStr "b"))
       no_set_cookie galaxy_http_errors (fun _ => "") new_world
       (record_request no_set_cookie order_list_request new_world) _) as H;
    [intros w w' rq; reflexivity |].
  exact (proj1 H 5%nat 0).
Defined.

Lemma jar_changes_only_through_session_witness :
  cookie_jar
    (snd (drain (get_trove_details_step (trove_session (JStr "a") (JStr "b"))
                   (set_cookie "csrf_cookie" "t") galaxy_http_errors)
            5 0 (with_cookie "_simpleauth_sess" "token" new_world)))
  !! "_simpleauth_sess"
  = Some "token".
Proof.
  unshelve epose proof
    (jar_changes_only_through_session
       (trove_session (JStr "a") (JStr "b")) (set_cookie "csrf_cookie" "t")
       galaxy_http_errors (fun _ => "") url_parts_lite raw_decode_lite
       (fun jar => jar !! "_simpleauth_sess" = Some "token")
       (with_cookie "_simpleauth_sess" "token" new_world) _ _) as H.
  - intros w rq Hw. unfold set_cookie.
    rewrite lookup_insert_ne; [exact Hw | discriminate].
  - apply lookup_insert_eq.
  - destruct H as (_ & _ & _ & _ & _ & _ & _ & Htrove & _).
    exact (Htrove 5%nat 0).
Defined.

Lemma _reedem_download_accepts_only_the_marker_witness :
  fst (_reedem_download download_session no_set_cookie galaxy_http_errors "game_pc"
         [("download_url_file", "setup.exe")] new_world)
  = Raise (UnknownBackendResponse "unexpected response while reedem trove download").
Proof.
  unshelve epose proof
    (_reedem_download_accepts_only_the_marker download_session no_set_cookie
        galaxy_http_errors
       "game_pc" [("download_url_file", "setup.exe")] new_world
       {| status := 200; res_json := Raise JSONDecodeError;
          res_text := Ok "{'success': False}"; res_read := Ok "{'success': False}" |}
       "{'success': False}" _ _) as H; [vm_compute; reflexivity .. |].
  apply (proj2 H). discriminate.
Defined.

Lemma authenticate_installs_the_cookie_witness :
  cookie_jar
    (snd (authenticate json_loads_lite no_escapes
            {| ac_name := "_simpleauth_sess";
               ac_value := q "eyJ1c2VyX2lkIjogMX0|1591000000|6c57e5" |} new_world))
  !! "_simpleauth_sess"
  = Some "eyJ1c2VyX2lkIjogMX0|1591000000|6c57e5".
Proof.
  unshelve epose proof
    (authenticate_installs_the_cookie json_loads_lite no_escapes
       {| ac_name := "_simpleauth_sess";
          ac_value := q "eyJ1c2VyX2lkIjogMX0|1591000000|6c57e5" |} new_world
       (q "eyJ1c2VyX2lkIjogMX0|1591000000|6c57e5") _ _) as H;
    [vm_compute; reflexivity .. |].
  exact (proj1 H).
Defined.

Lemma _decode_user_id_reads_first_segment_witness :
  _decode_user_id json_loads_lite "eyJ1c2VyX2lkIjogMX0|1591000000|6c57e5"
  = _decode_user_id json_loads_lite "eyJ1c2VyX2lkIjogMX0|tampered"
  /\ _decode_user_id json_loads_lite "eyJ1c2VyX2lkIjogMX0|1591000000|6c57e5"
     = _decode_user_id json_loads_lite "eyJ1c2VyX2lkIjogMX0".
Proof.
  apply (_decode_user_id_reads_first_segment json_loads_lite
           "eyJ1c2VyX2lkIjogMX0" eq_refl "1591000000|6c57e5" "tampered").
Defined.

Lemma _get_webpack_data_decodes_after_first_marker_witness :
  exists pre post,
    page_with_marker = pre +:+ webpack_marker "webpack-x" +:+ post
    /\ fst (_get_webpack_data (page_session page_with_marker) no_set_cookie
        galaxy_http_errors
              raw_decode_lite "subscription/home" "webpack-x" new_world)
       = webpack_result (raw_decode_lite (strip post)).
Proof.
  unshelve epose proof
    (_get_webpack_data_decodes_after_first_marker (page_session page_with_marker)
       no_set_cookie galaxy_http_errors raw_decode_lite "subscription/home"
           "webpack-x"
       new_world
       {| status := 200; res_json := Raise JSONDecodeError;
          res_text := Ok page_with_marker; res_read := Ok page_with_marker |}
       page_with_marker _ _ _) as H.
  - reflexivity.
  - reflexivity.
  - vm_compute. discriminate.
  - destruct H as (pre & post & Hsplit & _ & Hrun).
    exists pre, post. split; [exact Hsplit |].
    rewrite Hrun. reflexivity.
Defined.
